(** * batch_exec: a line-oriented directive runner

    Shallow embedding of [batch_exec.py] and the properties of its parser and
    dispatcher.  The script reads a file, splits it into lines and, for every
    non-empty line, launches one process or a two-stage pipe, then optionally
    sleeps.

    The Python builtins the script calls ([str.split], [str.find], [float])
    are modelled in [PyStr] and [PyFloat]; calls that reach the operating
    system ([print], [open]/[read], [subprocess.Popen], [close],
    [communicate], [time.sleep]) are recorded, in order, as events of a
    trace, and whether the host lets them succeed is a parameter of the run. *)

From Stdlib Require Import String Ascii List ZArith NArith Bool Lia.
Import ListNotations.

Local Open Scope list_scope.
Local Open Scope string_scope.

(** ** Python byte strings *)

Module PyStr.

(** [s.split(sep)] for a one-character separator: the pieces between the
    occurrences of [sep], empty pieces kept, never the empty list. *)
Fixpoint split (sep : ascii) (s : string) : list string :=
  match s with
  | EmptyString => [EmptyString]
  | String c r =>
      if Ascii.eqb c sep then EmptyString :: split sep r
      else match split sep r with
           | h :: t => String c h :: t
           | [] => [String c EmptyString]
           end
  end.

(** [s.find(c)] for a one-character needle: the index of the first
    occurrence, [-1] when there is none. *)
Fixpoint find (c : ascii) (s : string) : Z :=
  match s with
  | EmptyString => (-1)%Z
  | String a r =>
      if Ascii.eqb a c then 0%Z
      else let i := find c r in
           if (i <? 0)%Z then (-1)%Z else (i + 1)%Z
  end.

(** [sep.join(l)] *)
Fixpoint join (sep : string) (l : list string) : string :=
  match l with
  | [] => EmptyString
  | [x] => x
  | x :: t => x ++ sep ++ join sep t
  end.

(** [c in s] *)
Fixpoint has (c : ascii) (s : string) : bool :=
  match s with
  | EmptyString => false
  | String a r => Ascii.eqb a c || has c r
  end.

(** The text before the first [c] (all of [s] when [c] does not occur) and
    the text after it (empty when [c] does not occur). *)
Fixpoint before (c : ascii) (s : string) : string :=
  match s with
  | EmptyString => EmptyString
  | String a r => if Ascii.eqb a c then EmptyString else String a (before c r)
  end.

Fixpoint after (c : ascii) (s : string) : string :=
  match s with
  | EmptyString => EmptyString
  | String a r => if Ascii.eqb a c then r else after c r
  end.

(** The number of occurrences of [c]. *)
Fixpoint count (c : ascii) (s : string) : nat :=
  match s with
  | EmptyString => 0
  | String a r => (if Ascii.eqb a c then 1 else 0) + count c r
  end.

(** Truth value of a string in a condition: non-empty. *)
Definition truthy (s : string) : bool :=
  match s with EmptyString => false | _ => true end.

End PyStr.

(** ** The builtin [float] on strings

    [float(s)] skips white space on both sides and accepts a signed decimal
    literal (digits, optional point, optional exponent) or one of [inf],
    [infinity], [nan] in any letter case; anything else raises [ValueError].
    The value is kept as the decimal the literal denotes,
    [(-1)^neg * digits * 10^exp10]; its rounding to a binary double is left
    out of the model. *)

Module PyFloat.

Inductive t : Type :=
| Num (neg : bool) (digits : N) (exp10 : Z)
| Inf (neg : bool)
| Nan.

Definition is_space (c : ascii) : bool :=
  let n := nat_of_ascii c in
  Nat.eqb n 32 || (Nat.leb 9 n && Nat.leb n 13).

Fixpoint skip_spaces (s : string) : string :=
  match s with
  | String c r => if is_space c then skip_spaces r else s
  | EmptyString => s
  end.

Definition digit (c : ascii) : option N :=
  let n := N_of_ascii c in
  if (N.leb 48 n && N.leb n 57)%bool then Some (n - 48)%N else None.

(** A run of decimal digits: the number read so far, how many digits were
    read, and the text left. *)
Fixpoint digits (acc : N) (cnt : nat) (s : string) : N * nat * string :=
  match s with
  | String c r =>
      match digit c with
      | Some d => digits (acc * 10 + d)%N (S cnt) r
      | None => (acc, cnt, s)
      end
  | EmptyString => (acc, cnt, s)
  end.

Definition sign (s : string) : bool * string :=
  match s with
  | String "-"%char r => (true, r)
  | String "+"%char r => (false, r)
  | _ => (false, s)
  end.

Definition lower (c : ascii) : ascii :=
  let n := nat_of_ascii c in
  if (Nat.leb 65 n && Nat.leb n 90)%bool then ascii_of_nat (n + 32) else c.

(** [s] with the lower-case prefix [pat] removed, letter case of [s]
    ignored. *)
Fixpoint drop_word (pat s : string) : option string :=
  match pat with
  | EmptyString => Some s
  | String p pat' =>
      match s with
      | String c r => if Ascii.eqb (lower c) p then drop_word pat' r else None
      | EmptyString => None
      end
  end.

(** The exponent part; an [e] that no digit follows is not consumed. *)
Definition exponent (s : string) : Z * string :=
  match s with
  | String c r =>
      if Ascii.eqb (lower c) "e"%char then
        let '(neg, r1) := sign r in
        let '(e, n, r2) := digits 0 0 r1 in
        if Nat.eqb n 0 then (0%Z, s)
        else ((if neg then - Z.of_N e else Z.of_N e)%Z, r2)
      else (0%Z, s)
  | EmptyString => (0%Z, s)
  end.

Definition decimal (s : string) : option (t * string) :=
  let '(neg, s1) := sign s in
  let '(m1, n1, s2) := digits 0 0 s1 in
  let '(m, n2, s3) :=
    match s2 with
    | String "."%char r => digits m1 0 r
    | _ => (m1, 0, s2)
    end in
  if Nat.eqb (n1 + n2) 0 then None
  else let '(e, s4) := exponent s3 in
       Some (Num neg m (e - Z.of_nat n2)%Z, s4).

Definition inf_or_nan (s : string) : option (t * string) :=
  let '(neg, s1) := sign s in
  match drop_word "inf" s1 with
  | Some r =>
      match drop_word "inity" r with
      | Some r' => Some (Inf neg, r')
      | None => Some (Inf neg, r)
      end
  | None =>
      match drop_word "nan" s1 with
      | Some r => Some (Nan, r)
      | None => None
      end
  end.

Definition float (s : string) : option t :=
  let s1 := skip_spaces s in
  let parsed :=
    match decimal s1 with
    | Some r => Some r
    | None => inf_or_nan s1
    end in
  match parsed with
  | Some (v, rest) =>
      match skip_spaces rest with
      | EmptyString => Some v
      | _ => None
      end
  | None => None
  end.

End PyFloat.

(** ** Effects: traces of system calls and uncaught exceptions *)

Inductive exn : Type :=
| IOError | OSError | TypeError | ValueError | IndexError | AttributeError.

(** A value handed to [print]: a string, or a list of strings. *)
Inductive pyval : Type :=
| VStr (s : string)
| VList (l : list string).

(** The [stdout] argument of [Popen]: left out (inherited from the runner)
    or [subprocess.PIPE]. *)
Inductive stdout_arg : Type := Inherited | PIPE.

(** Calls that leave the interpreter, as the script makes them.  Processes
    are numbered in launch order; the read end of the pipe created for the
    standard output of process [p] is named by [p].  In [EPopen p argv i o],
    [p] is the number the process gets if the launch succeeds and [i] is the
    [stdin] argument: [None] when left out, [Some q] for the object
    [q.stdout].  In [ECommunicate p out], [out] is the first component of
    what [communicate] returns once process [p] has terminated. *)
Inductive event : Type :=
| EPrint (items : list pyval)
| EOpen (name : string)
| ERead (name : string)
| EPopen (p : nat) (argv : list string) (i : option nat) (o : stdout_arg)
| EClose (pipe : nat)
| ECommunicate (p : nat) (out : option string)
| ESleep (secs : PyFloat.t).

(** A [subprocess.Popen] object: the process and its [stdout] attribute,
    which is a file object only when the process was created with
    [stdout=PIPE]. *)
Record popen : Type := { pid : nat; stdout : option nat }.

(** What the host decides: the contents of the files that can be read, for
    which argument vectors it can create a process and execute the program
    (the program is found, may be executed, and there is room for one more
    process), what a process writes into a captured standard output, and
    which durations [time.sleep] accepts. *)
Record World : Type := {
  file_text : string -> option string;
  spawnable : list string -> bool;
  captured : nat -> string;
  sleepable : PyFloat.t -> bool
}.

(** An argument vector with a NUL byte in one of its strings cannot be
    handed to a program: [Popen] raises [TypeError] on it, on every host. *)
Definition nul : ascii := "000"%char.

Definition has_nul (argv : list string) : bool := existsb (PyStr.has nul) argv.

(** Whether [Popen] launches a process for [argv], and what it raises when
    it does not. *)
Definition launchable (w : World) (argv : list string) : bool :=
  negb (has_nul argv) && spawnable w argv.

Definition launch_error (argv : list string) : exn :=
  if has_nul argv then TypeError else OSError.

Inductive result (A : Type) : Type :=
| Ok (a : A)
| Raise (e : exn).
Arguments Ok {A} a.
Arguments Raise {A} e.

(** A computation takes the number of processes launched so far and gives a
    value or an uncaught exception, the new number of processes, and the
    calls it made. *)
Definition M (A : Type) : Type := nat -> result A * nat * list event.

Definition ret {A} (a : A) : M A := fun n => (Ok a, n, []).

Definition raise {A} (e : exn) : M A := fun n => (Raise e, n, []).

Definition bind {A B} (m : M A) (f : A -> M B) : M B :=
  fun n =>
    match m n with
    | (Ok a, n1, t1) => let '(r, n2, t2) := f a n1 in (r, n2, (t1 ++ t2)%list)
    | (Raise e, n1, t1) => (Raise e, n1, t1)
    end.

Definition emit (e : event) : M unit := fun n => (Ok tt, n, [e]).

Notation "x <- m ;; k" := (bind m (fun x => k))
  (at level 61, m at next level, right associativity).
Notation "m ;; k" := (bind m (fun _ => k))
  (at level 61, right associativity).

(** [l[i]] *)
Definition index {A} (l : list A) (i : nat) : M A :=
  match nth_error l i with
  | Some x => ret x
  | None => raise IndexError
  end.

(** [float(s)] *)
Definition float (s : string) : M PyFloat.t :=
  match PyFloat.float s with
  | Some v => ret v
  | None => raise ValueError
  end.

(** The [print] statement. *)
Definition print (items : list pyval) : M unit := emit (EPrint items).

Definition nl : ascii := "010"%char.

Section Runner.

Variable w : World.

(** [open(name, 'r').read()] *)
Definition read_file (name : string) : M string :=
  emit (EOpen name) ;;
  match file_text w name with
  | Some txt => emit (ERead name) ;; ret txt
  | None => raise IOError
  end.

(** [subprocess.Popen(argv, stdin=i, stdout=o)] *)
Definition Popen (argv : list string) (i : option nat) (o : stdout_arg)
  : M popen :=
  fun n =>
    if has_nul argv then (Raise TypeError, n, [EPopen n argv i o])
    else if spawnable w argv
    then (Ok {| pid := n;
               stdout := match o with PIPE => Some n | Inherited => None end |},
          S n, [EPopen n argv i o])
    else (Raise OSError, n, [EPopen n argv i o]).

(** [f.close()] on the [stdout] attribute of a process. *)
Definition close (f : option nat) : M unit :=
  match f with
  | Some pipe => emit (EClose pipe)
  | None => raise AttributeError
  end.

(** [p.communicate()[0]]: waits for [p] to terminate; the data read from its
    standard output when that was a pipe, [None] otherwise. *)
Definition communicate (p : popen) : M (option string) :=
  let out := match stdout p with
             | Some pipe => Some (captured w pipe)
             | None => None
             end in
  emit (ECommunicate (pid p) out) ;; ret out.

(** [time.sleep(secs)] *)
Definition sleep (secs : PyFloat.t) : M unit :=
  emit (ESleep secs) ;;
  if sleepable w secs then ret tt else raise IOError.

Definition _exc (exc_list : list string) : M unit :=
  print [VStr "[EXC]"; VList exc_list] ;;
  _ <- Popen exc_list None Inherited ;;
  ret tt.

Definition _piped_exc (exc_list1 exc_list2 : list string) : M unit :=
  print [VStr "[EXC]"; VList exc_list1; VStr "|"; VList exc_list2] ;;
  p1 <- Popen exc_list1 None PIPE ;;
  p2 <- Popen exc_list2 (stdout p1) Inherited ;;
  close (stdout p1) ;;
  output <- communicate p2 ;;
  ret tt.

(** The step of the loop body under the comment [#excute it]: one detached
    process for the whole line, or the two stages of a pipe. *)
Definition execute (cmd : string) (pipe_flag : Z) : M unit :=
  if (pipe_flag <? 1)%Z then
    _exc (PyStr.split " " cmd)
  else
    let excs := PyStr.split "|" cmd in
    e0 <- index excs 0 ;;
    e1 <- index excs 1 ;;
    _piped_exc (PyStr.split " " e0) (PyStr.split " " e1).

(** The step of the loop body under the comment [# waiting]. *)
Definition waiting (wait_time : list string) : M unit :=
  if Nat.ltb 1 (length wait_time) then
    print [VStr "[parsing waiting]"; VStr "["; VList wait_time; VStr "]"] ;;
    w1 <- index wait_time 1 ;;
    secs <- float w1 ;;
    sleep secs
  else ret tt.

(** The body of the loop of [parsing], for one element of [command_list]. *)
Definition parsing_cmd (cmd : string) : M unit :=
  if PyStr.truthy cmd then
    print [VStr "[parsing command]"; VStr "["; VStr cmd; VStr "]"] ;;
    let wait_time := PyStr.split "@" cmd in
    let pipe_flag := PyStr.find "|" cmd in
    execute cmd pipe_flag ;;
    waiting wait_time
  else ret tt.

(** [for cmd in command_list: ...] *)
Fixpoint parsing_loop (command_list : list string) : M unit :=
  match command_list with
  | [] => ret tt
  | cmd :: rest => parsing_cmd cmd ;; parsing_loop rest
  end.

Definition parsing (file_name : string) : M unit :=
  print [VStr "[parsing start]"] ;;
  txt <- read_file file_name ;;
  let command_list := PyStr.split nl txt in
  parsing_loop command_list.

(** The statements at the end of the script, for [sys.argv = argv]. *)
Definition main (argv : list string) : M unit :=
  (if Nat.eqb (length argv) 1
   then print [VStr "usage : python batch_exc.py filename"]
   else ret tt) ;;
  if Nat.ltb 1 (length argv) then
    file_name <- index argv 1 ;;
    parsing file_name
  else ret tt.

End Runner.

(** ** Reading a run *)

Definition outcome {A} (x : result A * nat * list event) : result A :=
  fst (fst x).

Definition procs {A} (x : result A * nat * list event) : nat :=
  snd (fst x).

Definition trace {A} (x : result A * nat * list event) : list event :=
  snd x.

Definition is_launch (e : event) : bool :=
  match e with EPopen _ _ _ _ => true | _ => false end.

Definition is_sleep (e : event) : bool :=
  match e with ESleep _ => true | _ => false end.

(** A call that creates, rewires or awaits a process. *)
Definition is_process_call (e : event) : bool :=
  match e with
  | EPopen _ _ _ _ | EClose _ | ECommunicate _ _ => true
  | _ => false
  end.

Definition no_process_calls (t : list event) : bool :=
  forallb (fun e => negb (is_process_call e)) t.

(** What [print] shows before a line is dispatched and before it sleeps. *)
Definition shown_command (cmd : string) : event :=
  EPrint [VStr "[parsing command]"; VStr "["; VStr cmd; VStr "]"].

Definition shown_waiting (wait_time : list string) : event :=
  EPrint [VStr "[parsing waiting]"; VStr "["; VList wait_time; VStr "]"].

(** Counting the calls of one kind in a trace. *)
Definition count_events (f : event -> bool) (t : list event) : nat :=
  length (filter f t).

Definition is_close (e : event) : bool :=
  match e with EClose _ => true | _ => false end.

Definition is_communicate (e : event) : bool :=
  match e with ECommunicate _ _ => true | _ => false end.

(** A launch with [stdout=PIPE]. *)
Definition is_piped_launch (e : event) : bool :=
  match e with EPopen _ _ _ PIPE => true | _ => false end.

(** 1 when the run ended in an exception of [Popen], else 0. *)
Definition failed_launch {A} (r : result A) : nat :=
  match r with Raise OSError | Raise TypeError => 1 | _ => 0 end.

(** What [print] shows first, and when the script gets no argument. *)
Definition shown_start : event := EPrint [VStr "[parsing start]"].

Definition shown_usage : event :=
  EPrint [VStr "usage : python batch_exc.py filename"].

(** ** A host to run examples on *)

Definition dq : string := String "034"%char EmptyString.

Definition lines (l : list string) : string := PyStr.join (String nl EmptyString) l.

(** The file of the usage text of the script. *)
Definition usage_file : string :=
  lines [ "echo " ++ dq ++ "HELLO" ++ dq;
          "echo " ++ dq ++ "HELLO" ++ dq ++ " @10";
          "ping google.com -t 256";
          "echo " ++ dq ++ "WORLD" ++ dq ++ " | cat" ].

(** A host with four files, which can execute every program with a
    non-empty name other than [nosuch], and on which [time.sleep] accepts
    the non-negative numbers. *)
Definition host : World := {|
  file_text := fun name =>
    if String.eqb name "usage.txt" then Some usage_file
    else if String.eqb name "empty.txt" then Some EmptyString
    else if String.eqb name "broken.txt"
         then Some (lines ["echo a"; "nosuch"; "echo b"])
    else if String.eqb name "baddelay.txt"
         then Some (lines ["echo a"; "echo b @soon"; "echo c"])
    else None;
  spawnable := fun argv =>
    match argv with
    | prog :: _ => negb (String.eqb prog "") && negb (String.eqb prog "nosuch")
    | [] => false
    end;
  captured := fun _ => EmptyString;
  sleepable := fun secs =>
    match secs with PyFloat.Num false _ _ => true | _ => false end
|}.

(** * Properties *)

(** ** Strings *)

Section StringFacts.

Import PyStr.

Variable c : ascii.

Lemma split_not_nil (s : string) : split c s <> [].
Proof.
  destruct s as [|a r]; simpl; [discriminate|].
  destruct (Ascii.eqb a c); [discriminate|].
  destruct (split c r); discriminate.
Qed.

Lemma split_before_after (s : string) :
  split c s = before c s :: (if has c s then split c (after c s) else []).
Proof.
  induction s as [|a r IH]; simpl; [reflexivity|].
  destruct (Ascii.eqb a c); simpl; [reflexivity|].
  rewrite IH. reflexivity.
Qed.

Lemma split_no_sep (s : string) : has c s = false -> split c s = [s].
Proof.
  induction s as [|a r IH]; simpl; [reflexivity|].
  destruct (Ascii.eqb a c); simpl; [discriminate|].
  intros H. rewrite (IH H). reflexivity.
Qed.

Lemma length_split (s : string) : length (split c s) = S (count c s).
Proof.
  induction s as [|a r IH]; simpl; [reflexivity|].
  destruct (Ascii.eqb a c); simpl; [now rewrite IH|].
  destruct (split c r) eqn:E; simpl in *; [discriminate|exact IH].
Qed.

Lemma has_count (s : string) : has c s = true <-> 0 < count c s.
Proof.
  induction s as [|a r IH]; simpl.
  - split; [discriminate|lia].
  - destruct (Ascii.eqb a c); simpl; [split; [lia|reflexivity]|exact IH].
Qed.

Lemma has_false_count (s : string) : has c s = false <-> count c s = 0.
Proof.
  destruct (has c s) eqn:E.
  - apply has_count in E. split; [discriminate|lia].
  - split; [|reflexivity]. intros _.
    destruct (count c s) eqn:C; [reflexivity|].
    assert (has c s = true) by (apply has_count; lia). congruence.
Qed.

Lemma split_length_gt_1 (s : string) :
  Nat.ltb 1 (length (split c s)) = has c s.
Proof.
  rewrite length_split.
  destruct (has c s) eqn:E.
  - apply has_count in E. apply Nat.ltb_lt. lia.
  - apply has_false_count in E. rewrite E. reflexivity.
Qed.

Lemma find_ge_m1 (s : string) : (-1 <= find c s)%Z.
Proof.
  induction s as [|a r IH]; simpl; [lia|].
  destruct (Ascii.eqb a c); [lia|].
  destruct (find c r <? 0)%Z eqn:E; [lia|].
  apply Z.ltb_ge in E. lia.
Qed.

Lemma find_spec (s : string) :
  find c s = if has c s then Z.of_nat (String.length (before c s)) else (-1)%Z.
Proof.
  induction s as [|a r IH]; simpl; [reflexivity|].
  destruct (Ascii.eqb a c); simpl; [reflexivity|].
  rewrite IH. destruct (has c r); [|reflexivity].
  destruct (Z.of_nat (String.length (before c r)) <? 0)%Z eqn:E.
  - apply Z.ltb_lt in E. lia.
  - lia.
Qed.

Lemma find_has (s : string) : (0 <= find c s)%Z <-> has c s = true.
Proof.
  rewrite find_spec. destruct (has c s); split; intros H;
    try reflexivity; try discriminate; lia.
Qed.

Lemma find_lt_1 (s : string) :
  (find c s <? 1)%Z = true <->
  has c s = false \/ exists r, s = String c r.
Proof.
  rewrite find_spec. destruct s as [|a r]; simpl.
  - split; [now left|reflexivity].
  - destruct (Ascii.eqb_spec a c) as [->|N]; simpl.
    + split; [right; now exists r|reflexivity].
    + destruct (has c r) eqn:E.
      * split.
        -- intros H. apply Z.ltb_lt in H. lia.
        -- intros [H|[r' H]]; [discriminate|]. inversion H. congruence.
      * split; [now left|reflexivity].
Qed.

Lemma find_ge_1 (s : string) :
  (1 <= find c s)%Z -> has c s = true /\ before c s <> EmptyString.
Proof.
  intros H. split; [apply find_has; lia|].
  rewrite find_spec in H. destruct (has c s); [|lia].
  destruct (before c s); [simpl in H; lia|discriminate].
Qed.

Lemma before_after (s : string) :
  has c s = true -> s = before c s ++ String c (after c s).
Proof.
  induction s as [|a r IH]; simpl; [discriminate|].
  destruct (Ascii.eqb_spec a c) as [->|N]; simpl; [reflexivity|].
  intros H. now rewrite <- IH.
Qed.


Lemma before_no_sep (s : string) : has c s = false -> before c s = s.
Proof.
  induction s as [|a r IH]; simpl; [reflexivity|].
  destruct (Ascii.eqb a c); simpl; [discriminate|].
  intros H. now rewrite IH.
Qed.

Lemma count_after (s : string) :
  has c s = true -> count c s = S (count c (after c s)).
Proof.
  induction s as [|a r IH]; simpl; [discriminate|].
  destruct (Ascii.eqb a c); simpl; [reflexivity|exact IH].
Qed.

Lemma has_append (a b : string) : has c (a ++ b) = has c a || has c b.
Proof.
  induction a as [|x a IH]; simpl; [reflexivity|].
  rewrite IH. now rewrite orb_assoc.
Qed.

Lemma split_app (a b : string) :
  split c (a ++ String c b) = (split c a ++ split c b)%list.
Proof.
  induction a as [|x a IH]; simpl.
  - now rewrite Ascii.eqb_refl.
  - destruct (Ascii.eqb x c); simpl; [now rewrite IH|].
    rewrite IH. destruct (split c a) eqn:E; [|reflexivity].
    exfalso. exact (split_not_nil a E).
Qed.

Lemma join_cons_char (x : ascii) (h : string) (t : list string) :
  join (String c EmptyString) (String x h :: t) =
  String x (join (String c EmptyString) (h :: t)).
Proof. destruct t; reflexivity. Qed.

Lemma join_split (s : string) : join (String c EmptyString) (split c s) = s.
Proof.
  induction s as [|a r IH]; simpl; [reflexivity|].
  destruct (Ascii.eqb_spec a c) as [->|N].
  - destruct (split c r) eqn:E; [exfalso; exact (split_not_nil r E)|].
    simpl in *. now rewrite IH.
  - destruct (split c r) eqn:E; [exfalso; exact (split_not_nil r E)|].
    rewrite join_cons_char. now rewrite IH.
Qed.

End StringFacts.

(** ** Sequencing *)

Lemma bind_ok {A B} (m : M A) (f : A -> M B) n a n1 t1 :
  m n = (Ok a, n1, t1) ->
  bind m f n = (outcome (f a n1), procs (f a n1), (t1 ++ trace (f a n1))%list).
Proof.
  intros H. unfold bind, outcome, procs, trace. rewrite H.
  destruct (f a n1) as [[r n2] t2]. reflexivity.
Qed.

Lemma bind_raise {A B} (m : M A) (f : A -> M B) n e n1 t1 :
  m n = (Raise e, n1, t1) -> bind m f n = (Raise e, n1, t1).
Proof. intros H. unfold bind. now rewrite H. Qed.

Lemma bind_ret {A B} (a : A) (f : A -> M B) n : bind (ret a) f n = f a n.
Proof. unfold bind, ret. destruct (f a n) as [[r n2] t2]. reflexivity. Qed.

Lemma run_eta {A} (x : result A * nat * list event) :
  (outcome x, procs x, trace x) = x.
Proof. destruct x as [[r n] t]. reflexivity. Qed.

Lemma outcome_mk {A} (r : result A) (n : nat) (t : list event) :
  outcome (r, n, t) = r.
Proof. reflexivity. Qed.

Lemma procs_mk {A} (r : result A) (n : nat) (t : list event) :
  procs (r, n, t) = n.
Proof. reflexivity. Qed.

Lemma trace_mk {A} (r : result A) (n : nat) (t : list event) :
  trace (r, n, t) = t.
Proof. reflexivity. Qed.

Ltac run_proj := rewrite ?outcome_mk, ?procs_mk, ?trace_mk.

(** ** The steps of the loop body *)

Section RunFacts.

Import PyStr.

Variable w : World.

Lemma Popen_run (argv : list string) (i : option nat) (o : stdout_arg)
  (n : nat) :
  Popen w argv i o n =
  if launchable w argv
  then (Ok {| pid := n;
             stdout := match o with PIPE => Some n | Inherited => None end |},
        S n, [EPopen n argv i o])
  else (Raise (launch_error argv), n, [EPopen n argv i o]).
Proof.
  unfold Popen, launchable, launch_error.
  destruct (has_nul argv); [reflexivity|].
  destruct (spawnable w argv); reflexivity.
Qed.

Lemma exc_run (l : list string) (n : nat) :
  _exc w l n =
  if launchable w l
  then (Ok tt, S n, [EPrint [VStr "[EXC]"; VList l]; EPopen n l None Inherited])
  else (Raise (launch_error l), n,
        [EPrint [VStr "[EXC]"; VList l]; EPopen n l None Inherited]).
Proof.
  unfold _exc, bind, print, emit, ret. rewrite Popen_run.
  destruct (launchable w l); reflexivity.
Qed.

Lemma piped_exc_run (l1 l2 : list string) (n : nat) :
  _piped_exc w l1 l2 n =
  let shown := EPrint [VStr "[EXC]"; VList l1; VStr "|"; VList l2] in
  if launchable w l1 then
    if launchable w l2 then
      (Ok tt, S (S n),
       [shown; EPopen n l1 None PIPE; EPopen (S n) l2 (Some n) Inherited;
        EClose n; ECommunicate (S n) None])
    else
      (Raise (launch_error l2), S n,
       [shown; EPopen n l1 None PIPE; EPopen (S n) l2 (Some n) Inherited])
  else (Raise (launch_error l1), n, [shown; EPopen n l1 None PIPE]).
Proof.
  unfold _piped_exc, bind, print, emit, close, communicate, ret.
  rewrite Popen_run.
  destruct (launchable w l1); simpl; [|reflexivity].
  rewrite Popen_run.
  destruct (launchable w l2); reflexivity.
Qed.

Lemma execute_single (cmd : string) (n : nat) :
  (find "|" cmd <? 1)%Z = true ->
  execute w cmd (find "|" cmd) n = _exc w (split " " cmd) n.
Proof. intros H. unfold execute. now rewrite H. Qed.

Lemma execute_piped (cmd : string) (n : nat) :
  (1 <= find "|" cmd)%Z ->
  execute w cmd (find "|" cmd) n =
  _piped_exc w (split " " (before "|" cmd))
               (split " " (before "|" (after "|" cmd))) n.
Proof.
  intros H. unfold execute.
  destruct (find "|" cmd <? 1)%Z eqn:E; [apply Z.ltb_lt in E; lia|].
  destruct (find_ge_1 _ _ H) as [Hhas _].
  rewrite (split_before_after "|" cmd), Hhas.
  rewrite (split_before_after "|" (after "|" cmd)).
  unfold index. cbn [nth_error]. now rewrite !bind_ret.
Qed.

Lemma waiting_run (cmd : string) (n : nat) :
  waiting w (split "@" cmd) n =
  if has "@" cmd then
    match PyFloat.float (before "@" (after "@" cmd)) with
    | Some secs =>
        (if sleepable w secs then Ok tt else Raise IOError, n,
         [shown_waiting (split "@" cmd); ESleep secs])
    | None => (Raise ValueError, n, [shown_waiting (split "@" cmd)])
    end
  else (Ok tt, n, []).
Proof.
  unfold waiting. rewrite split_length_gt_1.
  destruct (has "@" cmd) eqn:Hhas; [|reflexivity].
  assert (E : nth_error (split "@" cmd) 1 = Some (before "@" (after "@" cmd))).
  { rewrite (split_before_after "@" cmd), Hhas.
    now rewrite (split_before_after "@" (after "@" cmd)). }
  unfold index, float. rewrite E.
  unfold bind, print, emit, ret, sleep, raise, shown_waiting.
  destruct (PyFloat.float (before "@" (after "@" cmd))) as [secs|];
    [|reflexivity].
  simpl. destruct (sleepable w secs); reflexivity.
Qed.

Lemma waiting_no_process_calls (cmd : string) (n : nat) :
  no_process_calls (trace (waiting w (split "@" cmd) n)) = true
  /\ procs (waiting w (split "@" cmd) n) = n.
Proof.
  rewrite waiting_run. destruct (has "@" cmd); [|now split].
  destruct (PyFloat.float _); now split.
Qed.

Lemma parsing_cmd_ok (cmd : string) (n n1 : nat) (t1 : list event) :
  truthy cmd = true ->
  execute w cmd (find "|" cmd) n = (Ok tt, n1, t1) ->
  parsing_cmd w cmd n =
  (outcome (waiting w (split "@" cmd) n1),
   procs (waiting w (split "@" cmd) n1),
   (shown_command cmd :: t1 ++ trace (waiting w (split "@" cmd) n1))%list).
Proof.
  intros Ht He. unfold parsing_cmd. rewrite Ht.
  unfold bind at 1. unfold print, emit.
  rewrite (bind_ok _ _ _ _ _ _ He). reflexivity.
Qed.

Lemma parsing_cmd_raise (cmd : string) (n n1 : nat) e (t1 : list event) :
  truthy cmd = true ->
  execute w cmd (find "|" cmd) n = (Raise e, n1, t1) ->
  parsing_cmd w cmd n = (Raise e, n1, shown_command cmd :: t1).
Proof.
  intros Ht He. unfold parsing_cmd. rewrite Ht.
  unfold bind at 1. unfold print, emit.
  rewrite (bind_raise _ _ _ _ _ _ He). reflexivity.
Qed.

End RunFacts.

Import PyStr.

(** ** Lines that launch one process *)

Lemma truthy_nonempty (s : string) : s <> EmptyString -> truthy s = true.
Proof. destruct s; [congruence|reflexivity]. Qed.

Lemma has_truthy (c : ascii) (s : string) : has c s = true -> truthy s = true.
Proof. destruct s; [discriminate|reflexivity]. Qed.

Lemma has_join (c d : ascii) (l : list string) :
  Ascii.eqb d c = false ->
  has c (join (String d EmptyString) l) = true ->
  exists tok, In tok l /\ has c tok = true.
Proof.
  intros Hd. induction l as [|x t IH]; simpl; [discriminate|].
  destruct t as [|y t].
  - intros H. exists x. split; [now left|exact H].
  - rewrite has_append. simpl has at 2. rewrite Hd. simpl orb.
    intros H. apply orb_true_iff in H. destruct H as [H|H].
    + exists x. split; [now left|exact H].
    + destruct (IH H) as [tok [Hin Htok]].
      exists tok. split; [now right|exact Htok].
Qed.

Lemma parsing_cmd_single (w : World) (cmd : string) (n : nat) :
  truthy cmd = true ->
  (find "|" cmd <? 1)%Z = true ->
  let argv := split " " cmd in
  let head := [shown_command cmd; EPrint [VStr "[EXC]"; VList argv];
               EPopen n argv None Inherited] in
  parsing_cmd w cmd n =
  if launchable w argv
  then (outcome (waiting w (split "@" cmd) (S n)), S n,
        (head ++ trace (waiting w (split "@" cmd) (S n)))%list)
  else (Raise (launch_error argv), n, head).
Proof.
  intros Ht Hp argv head.
  pose proof (execute_single w cmd n Hp) as He.
  rewrite exc_run in He. fold argv in He.
  destruct (launchable w argv).
  - rewrite (parsing_cmd_ok w cmd n _ _ Ht He).
    destruct (waiting_no_process_calls w cmd (S n)) as [_ ->]. reflexivity.
  - rewrite (parsing_cmd_raise w cmd n _ _ _ Ht He). reflexivity.
Qed.

Lemma parsing_cmd_single_shape (w : World) (cmd : string) (n : nat) :
  truthy cmd = true ->
  (find "|" cmd <? 1)%Z = true ->
  exists r n' t,
    parsing_cmd w cmd n =
    (r, n', shown_command cmd
            :: EPrint [VStr "[EXC]"; VList (split " " cmd)]
            :: EPopen n (split " " cmd) None Inherited :: t)
    /\ no_process_calls t = true.
Proof.
  intros Ht Hp. rewrite (parsing_cmd_single w cmd n Ht Hp).
  destruct (launchable w (split " " cmd)).
  - eexists _, _, _. split; [reflexivity|].
    apply waiting_no_process_calls.
  - eexists _, _, _. split; reflexivity.
Qed.

(** C5: a non-empty line with neither [@] nor [|] makes exactly one launch,
    not redirected, whose argument vector is the whole line split on single
    spaces; joining the vector with spaces gives the line back, so nothing
    of the line is dropped or altered. *)
Theorem C5_plain_line_argv_verbatim (w : World) (cmd : string) (n : nat) :
  cmd <> EmptyString ->
  has "@" cmd = false ->
  has "|" cmd = false ->
  let argv := split " " cmd in
  parsing_cmd w cmd n =
    (if launchable w argv then Ok tt else Raise (launch_error argv),
     if launchable w argv then S n else n,
     [shown_command cmd; EPrint [VStr "[EXC]"; VList argv];
      EPopen n argv None Inherited])
  /\ join " " argv = cmd.
Proof.
  intros Hne Hat Hpipe argv. split; [|apply join_split].
  assert (Hp : (find "|" cmd <? 1)%Z = true)
    by (apply find_lt_1; now left).
  rewrite (parsing_cmd_single w cmd n (truthy_nonempty _ Hne) Hp).
  fold argv. rewrite waiting_run, Hat.
  destruct (launchable w argv); reflexivity.
Qed.

Lemma C5_witness :
  parsing_cmd host "ping google.com -t 256" 0 =
    (Ok tt, 1,
     [shown_command "ping google.com -t 256";
      EPrint [VStr "[EXC]"; VList ["ping"; "google.com"; "-t"; "256"]];
      EPopen 0 ["ping"; "google.com"; "-t"; "256"] None Inherited])
  /\ join " " ["ping"; "google.com"; "-t"; "256"] = "ping google.com -t 256".
Proof.
  apply (C5_plain_line_argv_verbatim host "ping google.com -t 256" 0);
    [discriminate|reflexivity|reflexivity].
Defined.

(** C4: on a non-piped line that contains [@] the delay text is not removed
    before the line is tokenized: the one launch gets the whole line split
    on single spaces, some token of it contains the [@], and when the line
    ends in a space followed by [@] and a text without spaces, that text
    with its [@] is the last argument. *)
Theorem C4_delay_suffix_stays_in_argv (w : World) (cmd : string) (n : nat) :
  has "@" cmd = true ->
  (find "|" cmd < 1)%Z ->
  let argv := split " " cmd in
  (exists r n' t,
     parsing_cmd w cmd n =
       (r, n', shown_command cmd :: EPrint [VStr "[EXC]"; VList argv]
               :: EPopen n argv None Inherited :: t)
     /\ no_process_calls t = true)
  /\ join " " argv = cmd
  /\ (exists tok, In tok argv /\ has "@" tok = true)
  /\ (forall pre num,
        cmd = pre ++ " @" ++ num -> has " " num = false ->
        argv = (split " " pre ++ [String "@" num])%list).
Proof.
  intros Hat Hp argv.
  apply Z.ltb_lt in Hp.
  split; [apply parsing_cmd_single_shape; [exact (has_truthy _ _ Hat)|exact Hp]|].
  split; [apply join_split|].
  split.
  - apply (has_join "@" " "); [reflexivity|].
    unfold argv. now rewrite join_split.
  - intros pre num -> Hnum. unfold argv.
    change (pre ++ " @" ++ num) with (pre ++ String " " (String "@" num)).
    rewrite split_app. f_equal.
    apply split_no_sep. simpl. exact Hnum.
Qed.

Lemma C4_witness :
  (exists r n' t,
     parsing_cmd host "echo x @10" 0 =
       (r, n', shown_command "echo x @10"
               :: EPrint [VStr "[EXC]"; VList ["echo"; "x"; "@10"]]
               :: EPopen 0 ["echo"; "x"; "@10"] None Inherited :: t)
     /\ no_process_calls t = true)
  /\ join " " ["echo"; "x"; "@10"] = "echo x @10"
  /\ (exists tok, In tok ["echo"; "x"; "@10"] /\ has "@" tok = true)
  /\ (forall pre num,
        "echo x @10" = pre ++ " @" ++ num -> has " " num = false ->
        ["echo"; "x"; "@10"] = (split " " pre ++ [String "@" num])%list).
Proof.
  apply (C4_delay_suffix_stays_in_argv host "echo x @10" 0);
    [reflexivity|reflexivity].
Defined.

(** C6: a line whose first character is [|] is not run as a pipe: it is
    dispatched exactly as a single command, its one launch gets the whole
    line split on single spaces, not redirected, and the first token still
    starts with the [|]. *)
Theorem C6_leading_pipe_runs_single_command
  (w : World) (rest : string) (n : nat) :
  let cmd := String "|" rest in
  let argv := split " " cmd in
  execute w cmd (find "|" cmd) n = _exc w argv n
  /\ (exists r n' t,
        parsing_cmd w cmd n =
          (r, n', shown_command cmd :: EPrint [VStr "[EXC]"; VList argv]
                  :: EPopen n argv None Inherited :: t)
        /\ no_process_calls t = true)
  /\ join " " argv = cmd
  /\ hd EmptyString argv = String "|" (before " " rest).
Proof.
  intros cmd argv.
  assert (Hp : (find "|" cmd <? 1)%Z = true) by reflexivity.
  split; [exact (execute_single w cmd n Hp)|].
  split; [apply parsing_cmd_single_shape; [reflexivity|exact Hp]|].
  split; [apply join_split|].
  unfold argv, cmd. simpl split.
  rewrite (split_before_after " " rest). reflexivity.
Qed.

(** ** Lines that launch a pipe *)

Lemma parsing_cmd_piped (w : World) (cmd : string) (n : nat) :
  (1 <= find "|" cmd)%Z ->
  let a1 := split " " (before "|" cmd) in
  let a2 := split " " (before "|" (after "|" cmd)) in
  let shown := EPrint [VStr "[EXC]"; VList a1; VStr "|"; VList a2] in
  parsing_cmd w cmd n =
  if launchable w a1 then
    if launchable w a2 then
      (outcome (waiting w (split "@" cmd) (S (S n))), S (S n),
       ([shown_command cmd; shown; EPopen n a1 None PIPE;
         EPopen (S n) a2 (Some n) Inherited; EClose n;
         ECommunicate (S n) None]
        ++ trace (waiting w (split "@" cmd) (S (S n))))%list)
    else
      (Raise (launch_error a2), S n,
       [shown_command cmd; shown; EPopen n a1 None PIPE;
        EPopen (S n) a2 (Some n) Inherited])
  else (Raise (launch_error a1), n,
        [shown_command cmd; shown; EPopen n a1 None PIPE]).
Proof.
  intros Hp a1 a2 shown.
  assert (Ht : truthy cmd = true)
    by (apply (has_truthy "|"); apply find_has; lia).
  pose proof (execute_piped w cmd n Hp) as He.
  rewrite piped_exc_run in He. cbv zeta in He.
  fold a1 a2 in He. fold shown in He.
  destruct (launchable w a1); [destruct (launchable w a2)|].
  - rewrite (parsing_cmd_ok w cmd n _ _ Ht He).
    destruct (waiting_no_process_calls w cmd (S (S n))) as [_ ->].
    reflexivity.
  - rewrite (parsing_cmd_raise w cmd n _ _ _ Ht He). reflexivity.
  - rewrite (parsing_cmd_raise w cmd n _ _ _ Ht He). reflexivity.
Qed.





(** ** What follows a line *)

Lemma in_trace_bind {A B} (m : M A) (f : A -> M B) (n : nat) (e : event) :
  In e (trace (bind m f n)) ->
  In e (trace (m n))
  \/ exists a, outcome (m n) = Ok a /\ In e (trace (f a (procs (m n)))).
Proof.
  unfold bind, trace, outcome, procs.
  destruct (m n) as [[[a|x] n1] t1]; simpl; [|now left].
  destruct (f a n1) as [[r n2] t2] eqn:E; simpl.
  intros H. apply in_app_or in H. destruct H as [H|H]; [now left|].
  right. exists a. split; [reflexivity|]. now rewrite E.
Qed.

Lemma procs_bind {A B} (m : M A) (f : A -> M B) (n : nat) :
  (forall k, k <= procs (m k)) ->
  (forall a k, k <= procs (f a k)) ->
  n <= procs (bind m f n).
Proof.
  intros Hm Hf. unfold bind, procs in *.
  specialize (Hm n).
  destruct (m n) as [[[a|x] n1] t1]; simpl in *; [|exact Hm].
  specialize (Hf a n1).
  destruct (f a n1) as [[r n2] t2]; simpl in *. lia.
Qed.

Lemma no_process_calls_not_awaited (t : list event) p out :
  no_process_calls t = true -> ~ In (ECommunicate p out) t.
Proof.
  unfold no_process_calls. intros H Hin.
  rewrite forallb_forall in H. specialize (H _ Hin). discriminate H.
Qed.

Lemma parsing_cmd_procs (w : World) (cmd : string) (m : nat) :
  m <= procs (parsing_cmd w cmd m).
Proof.
  destruct (truthy cmd) eqn:Ht; [|unfold parsing_cmd; rewrite Ht; cbv; lia].
  destruct (find "|" cmd <? 1)%Z eqn:Hp.
  - rewrite (parsing_cmd_single w cmd m Ht Hp).
    destruct (launchable w (split " " cmd)); unfold procs; simpl; lia.
  - apply Z.ltb_ge in Hp. rewrite (parsing_cmd_piped w cmd m Hp).
    destruct (launchable w _); [destruct (launchable w _)|]; unfold procs; simpl; lia.
Qed.

(** Whatever a line does, [communicate] is only called on a process launched
    by that line, and what it returns is [None]. *)
Lemma parsing_cmd_awaited (w : World) (cmd : string) (m p : nat) out :
  In (ECommunicate p out) (trace (parsing_cmd w cmd m)) ->
  m < p /\ out = None.
Proof.
  destruct (truthy cmd) eqn:Ht;
    [|unfold parsing_cmd; rewrite Ht; cbv; tauto].
  destruct (find "|" cmd <? 1)%Z eqn:Hp.
  - rewrite (parsing_cmd_single w cmd m Ht Hp).
    destruct (launchable w (split " " cmd)); unfold trace at 1; simpl.
    + intros [H|[H|[H|H]]]; try discriminate H.
      exfalso. revert H. apply no_process_calls_not_awaited.
      apply waiting_no_process_calls.
    + intros [H|[H|[H|H]]]; try discriminate H. destruct H.
  - apply Z.ltb_ge in Hp. rewrite (parsing_cmd_piped w cmd m Hp).
    destruct (launchable w _); [destruct (launchable w _)|]; unfold trace at 1; simpl.
    + intros [H|[H|[H|[H|[H|[H|H]]]]]]; try discriminate H.
      * inversion H. split; [lia|reflexivity].
      * exfalso. revert H. apply no_process_calls_not_awaited.
        apply waiting_no_process_calls.
    + intros [H|[H|[H|[H|H]]]]; try discriminate H. destruct H.
    + intros [H|[H|[H|H]]]; try discriminate H. destruct H.
Qed.

Lemma parsing_loop_procs (w : World) (l : list string) (m : nat) :
  m <= procs (parsing_loop w l m).
Proof.
  revert m. induction l as [|cmd rest IH]; intros m; [cbv; lia|simpl].
  apply procs_bind; [apply parsing_cmd_procs|intros _; apply IH].
Qed.

Lemma parsing_loop_awaited (w : World) (l : list string) (m p : nat) out :
  In (ECommunicate p out) (trace (parsing_loop w l m)) ->
  m < p /\ out = None.
Proof.
  revert m. induction l as [|cmd rest IH]; intros m; [cbv; tauto|simpl].
  intros H. apply in_trace_bind in H. destruct H as [H|[a [_ H]]].
  - exact (parsing_cmd_awaited w cmd m p out H).
  - destruct (IH _ H) as [Hlt Hout].
    pose proof (parsing_cmd_procs w cmd m). split; [lia|exact Hout].
Qed.

Lemma parsing_loop_cons_ok (w : World) (cmd : string) (rest : list string)
  (n n1 : nat) (t1 : list event) :
  truthy cmd = true ->
  execute w cmd (find "|" cmd) n = (Ok tt, n1, t1) ->
  let later := (waiting w (split "@" cmd) ;; parsing_loop w rest) n1 in
  parsing_loop w (cmd :: rest) n =
  (outcome later, procs later, (shown_command cmd :: t1 ++ trace later)%list).
Proof.
  intros Ht He later. subst later. simpl parsing_loop.
  unfold bind at 1. rewrite (parsing_cmd_ok w cmd n n1 t1 Ht He).
  unfold bind, outcome, procs, trace.
  destruct (waiting w (split "@" cmd) n1) as [[[[]|x] n2] t2]; simpl;
    [|reflexivity].
  destruct (parsing_loop w rest n2) as [[r n3] t3]; simpl.
  now rewrite <- app_assoc.
Qed.

(** C2, amended: after a piped line whose two stages were launched, the
    delay step and every later line come after the [communicate] call on
    stage 2, which waits for that process; stage 2 is launched with its
    standard output not redirected, so nothing is captured and
    [communicate] returns [None].  After a non-piped line that was launched,
    the delay step and the later lines follow the launch directly, and the
    launched process is never waited for. *)
Theorem C2_pipe_awaited_single_detached
  (w : World) (cmd : string) (rest : list string) (n : nat) :
  ((1 <= find "|" cmd)%Z ->
   let a1 := split " " (before "|" cmd) in
   let a2 := split " " (before "|" (after "|" cmd)) in
   launchable w a1 = true -> launchable w a2 = true ->
   let later := (waiting w (split "@" cmd) ;; parsing_loop w rest) (S (S n)) in
   parsing_loop w (cmd :: rest) n =
     (outcome later, procs later,
      ([shown_command cmd;
        EPrint [VStr "[EXC]"; VList a1; VStr "|"; VList a2];
        EPopen n a1 None PIPE; EPopen (S n) a2 (Some n) Inherited;
        EClose n; ECommunicate (S n) None] ++ trace later)%list))
  /\ (cmd <> EmptyString -> (find "|" cmd < 1)%Z ->
      let argv := split " " cmd in
      launchable w argv = true ->
      let later := (waiting w (split "@" cmd) ;; parsing_loop w rest) (S n) in
      parsing_loop w (cmd :: rest) n =
        (outcome later, procs later,
         ([shown_command cmd; EPrint [VStr "[EXC]"; VList argv];
           EPopen n argv None Inherited] ++ trace later)%list)
      /\ forall out, ~ In (ECommunicate n out) (trace later)).
Proof.
  split.
  - intros Hp a1 a2 H1 H2 later.
    assert (Ht : truthy cmd = true)
      by (apply (has_truthy "|"); apply find_has; lia).
    pose proof (execute_piped w cmd n Hp) as He.
    rewrite piped_exc_run in He. cbv zeta in He.
    fold a1 a2 in He. rewrite H1, H2 in He.
    exact (parsing_loop_cons_ok w cmd rest n _ _ Ht He).
  - intros Hne Hp argv Hl later.
    apply Z.ltb_lt in Hp.
    pose proof (execute_single w cmd n Hp) as He.
    rewrite exc_run in He. fold argv in He. rewrite Hl in He.
    split;
      [exact (parsing_loop_cons_ok w cmd rest n _ _ (truthy_nonempty _ Hne) He)|].
    intros out Hin. subst later.
    apply in_trace_bind in Hin. destruct Hin as [Hin|[a [_ Hin]]].
    + revert Hin. apply no_process_calls_not_awaited.
      apply waiting_no_process_calls.
    + destruct (waiting_no_process_calls w cmd (S n)) as [_ E].
      rewrite E in Hin. apply parsing_loop_awaited in Hin. lia.
Qed.

Lemma C2_witness :
  parsing_loop host ["echo hi|cat"; "echo x @10"] 0 =
    (Ok tt, 3,
     [shown_command "echo hi|cat";
      EPrint [VStr "[EXC]"; VList ["echo"; "hi"]; VStr "|"; VList ["cat"]];
      EPopen 0 ["echo"; "hi"] None PIPE; EPopen 1 ["cat"] (Some 0) Inherited;
      EClose 0; ECommunicate 1 None;
      shown_command "echo x @10";
      EPrint [VStr "[EXC]"; VList ["echo"; "x"; "@10"]];
      EPopen 2 ["echo"; "x"; "@10"] None Inherited;
      shown_waiting ["echo x "; "10"]; ESleep (PyFloat.Num false 10 0)])
  /\ parsing_loop host ["echo x @10"; "echo y"] 0 =
    (Ok tt, 2,
     [shown_command "echo x @10";
      EPrint [VStr "[EXC]"; VList ["echo"; "x"; "@10"]];
      EPopen 0 ["echo"; "x"; "@10"] None Inherited;
      shown_waiting ["echo x "; "10"]; ESleep (PyFloat.Num false 10 0);
      shown_command "echo y";
      EPrint [VStr "[EXC]"; VList ["echo"; "y"]];
      EPopen 1 ["echo"; "y"] None Inherited]).
Proof.
  split.
  - apply (proj1 (C2_pipe_awaited_single_detached
                    host "echo hi|cat" ["echo x @10"] 0));
      [vm_compute; discriminate|reflexivity|reflexivity].
  - apply (proj2 (C2_pipe_awaited_single_detached
                    host "echo x @10" ["echo y"] 0));
      [discriminate|reflexivity|reflexivity].
Defined.

(** C2 as stated fails on [echo hi|cat]: stage 2 is launched without
    [stdout=PIPE], so its output goes where the runner's goes and
    [communicate] has nothing to return. *)
Lemma C2_counterexample :
  (1 <= find "|" "echo hi|cat")%Z
  /\ parsing_cmd host "echo hi|cat" 0 =
       (Ok tt, 2,
        [shown_command "echo hi|cat";
         EPrint [VStr "[EXC]"; VList ["echo"; "hi"]; VStr "|"; VList ["cat"]];
         EPopen 0 ["echo"; "hi"] None PIPE;
         EPopen 1 ["cat"] (Some 0) Inherited;
         EClose 0; ECommunicate 1 None])
  /\ (forall argv i,
        ~ In (EPopen 1 argv i PIPE) (trace (parsing_cmd host "echo hi|cat" 0)))
  /\ (forall p data,
        ~ In (ECommunicate p (Some data))
             (trace (parsing_cmd host "echo hi|cat" 0))).
Proof.
  split; [vm_compute; discriminate|]. split; [reflexivity|].
  split.
  - intros argv i H. vm_compute in H.
    repeat (destruct H as [H|H]; [discriminate H|]). exact H.
  - intros p data H. vm_compute in H.
    repeat (destruct H as [H|H]; [discriminate H|]). exact H.
Qed.

(** ** The delay *)

Lemma execute_trace (w : World) (cmd : string) (n : nat) :
  let step := execute w cmd (find "|" cmd) n in
  (exists shown argv i o t,
     trace step = EPrint shown :: EPopen n argv i o :: t)
  /\ forallb (fun e => negb (is_sleep e)) (trace step) = true.
Proof.
  intros step. subst step.
  destruct (find "|" cmd <? 1)%Z eqn:Hp.
  - rewrite (execute_single w cmd n Hp), exc_run.
    destruct (launchable w _); (split; [now eexists _, _, _, _, _|reflexivity]).
  - apply Z.ltb_ge in Hp.
    rewrite (execute_piped w cmd n Hp), piped_exc_run. cbv zeta.
    destruct (launchable w _); [destruct (launchable w _)|];
      (split; [now eexists _, _, _, _, _|reflexivity]).
Qed.

Lemma parsing_cmd_with_delay (w : World) (cmd : string) (n : nat) :
  has "@" cmd = true ->
  let secs_text := before "@" (after "@" cmd) in
  let step := execute w cmd (find "|" cmd) n in
  parsing_cmd w cmd n =
    match outcome step with
    | Raise e => (Raise e, procs step, shown_command cmd :: trace step)
    | Ok _ =>
        match PyFloat.float secs_text with
        | Some secs =>
            (if sleepable w secs then Ok tt else Raise IOError, procs step,
             (shown_command cmd :: trace step
              ++ [shown_waiting (split "@" cmd); ESleep secs])%list)
        | None =>
            (Raise ValueError, procs step,
             (shown_command cmd :: trace step
              ++ [shown_waiting (split "@" cmd)])%list)
        end
    end.
Proof.
  intros Hat secs_text step.
  pose proof (has_truthy _ _ Hat) as Ht.
  destruct step as [[[[]|e] n1] t1] eqn:E; unfold outcome, procs, trace; simpl.
  - rewrite (parsing_cmd_ok w cmd n n1 t1 Ht E).
    rewrite waiting_run, Hat. fold secs_text.
    destruct (PyFloat.float secs_text); reflexivity.
  - exact (parsing_cmd_raise w cmd n n1 e t1 Ht E).
Qed.

Lemma no_sleep_not_in (t : list event) (secs : PyFloat.t) :
  forallb (fun e => negb (is_sleep e)) t = true -> ~ In (ESleep secs) t.
Proof.
  rewrite forallb_forall. intros H Hin. specialize (H _ Hin). discriminate H.
Qed.

(** C3, amended: on a line that contains [@] the execution step comes
    first; it attempts a launch and never sleeps.  Whenever the line sleeps,
    the sleep is its last call, after the whole execution step, and it lasts
    the number that [float] reads in the text between the first [@] and the
    second one (all the text after the first [@] when the line has only
    one).  When that text is not a number the line ends with an exception
    and does not sleep: the exception of the execution step if that one
    failed, [ValueError] otherwise. *)
Theorem C3_delay_follows_execution (w : World) (cmd : string) (n : nat) :
  has "@" cmd = true ->
  let secs_text := before "@" (after "@" cmd) in
  let step := execute w cmd (find "|" cmd) n in
  (exists shown argv i o t,
     trace step = EPrint shown :: EPopen n argv i o :: t)
  /\ forallb (fun e => negb (is_sleep e)) (trace step) = true
  /\ parsing_cmd w cmd n =
       match outcome step with
       | Raise e => (Raise e, procs step, shown_command cmd :: trace step)
       | Ok _ =>
           match PyFloat.float secs_text with
           | Some secs =>
               (if sleepable w secs then Ok tt else Raise IOError, procs step,
                (shown_command cmd :: trace step
                 ++ [shown_waiting (split "@" cmd); ESleep secs])%list)
           | None =>
               (Raise ValueError, procs step,
                (shown_command cmd :: trace step
                 ++ [shown_waiting (split "@" cmd)])%list)
           end
       end
  /\ (forall secs,
        In (ESleep secs) (trace (parsing_cmd w cmd n)) ->
        PyFloat.float secs_text = Some secs
        /\ trace (parsing_cmd w cmd n) =
             (shown_command cmd :: trace step
              ++ [shown_waiting (split "@" cmd); ESleep secs])%list)
  /\ (PyFloat.float secs_text = None ->
      (exists e, outcome (parsing_cmd w cmd n) = Raise e)
      /\ forallb (fun e => negb (is_sleep e)) (trace (parsing_cmd w cmd n))
         = true)
  /\ cmd = before "@" cmd ++ String "@" (after "@" cmd)
  /\ (count "@" cmd = 1 -> secs_text = after "@" cmd).
Proof.
  intros Hat secs_text step.
  destruct (execute_trace w cmd n) as [Hshape Hnosleep].
  fold step in Hshape, Hnosleep.
  pose proof (parsing_cmd_with_delay w cmd n Hat) as Hrun.
  cbv zeta in Hrun. fold secs_text in Hrun. fold step in Hrun.
  split; [exact Hshape|]. split; [exact Hnosleep|]. split; [exact Hrun|].
  split; [|split; [|split; [now apply before_after|]]].
  - intros secs. rewrite Hrun.
    destruct (outcome step) as [[]|e]; run_proj.
    + destruct (PyFloat.float secs_text) as [secs'|]; run_proj;
        unfold shown_command, shown_waiting;
        (intros [H|H]; [discriminate H|]);
        apply in_app_or in H;
        (destruct H as [H|H]; [exfalso; exact (no_sleep_not_in _ _ Hnosleep H)|]).
      * destruct H as [H|[H|[]]]; [discriminate H|].
        inversion H; subst. split; reflexivity.
      * destruct H as [H|[]]. discriminate H.
    + unfold shown_command. intros [H|H]; [discriminate H|].
      exfalso. exact (no_sleep_not_in _ _ Hnosleep H).
  - intros Hf. rewrite Hrun, Hf.
    destruct (outcome step) as [[]|e]; run_proj.
    + split; [now eexists|].
      simpl. rewrite forallb_app, Hnosleep. reflexivity.
    + split; [now eexists|]. simpl. exact Hnosleep.
  - intros Hc. unfold secs_text. apply before_no_sep.
    apply has_false_count. rewrite (count_after "@" cmd Hat) in Hc. lia.
Qed.

Lemma C3_witness :
  parsing_cmd host "echo x @10" 0 =
    (Ok tt, 1,
     [shown_command "echo x @10";
      EPrint [VStr "[EXC]"; VList ["echo"; "x"; "@10"]];
      EPopen 0 ["echo"; "x"; "@10"] None Inherited;
      shown_waiting ["echo x "; "10"]; ESleep (PyFloat.Num false 10 0)])
  /\ PyFloat.float "10" = Some (PyFloat.Num false 10 0)
  /\ "echo x @10" = "echo x " ++ String "@" "10".
Proof.
  pose proof (C3_delay_follows_execution host "echo x @10" 0 eq_refl)
    as [_ [_ [Hrun [Hsleep [_ [Hcut _]]]]]].
  split; [exact Hrun|]. split; [|exact Hcut].
  apply (Hsleep (PyFloat.Num false 10 0)). rewrite Hrun. simpl. tauto.
Defined.

(** C3 as stated fails on [echo @1@2]: the text after the first [@] is
    [1@2], which is not a number, yet nothing is raised and the runner
    sleeps for 1 second, the number before the second [@]. *)
Lemma C3_counterexample :
  has "@" "echo @1@2" = true
  /\ after "@" "echo @1@2" = "1@2"
  /\ PyFloat.float (after "@" "echo @1@2") = None
  /\ parsing_cmd host "echo @1@2" 0 =
       (Ok tt, 1,
        [shown_command "echo @1@2";
         EPrint [VStr "[EXC]"; VList ["echo"; "@1@2"]];
         EPopen 0 ["echo"; "@1@2"] None Inherited;
         shown_waiting ["echo "; "1"; "2"]; ESleep (PyFloat.Num false 1 0)]).
Proof. repeat split; reflexivity. Qed.




(** ** Tokens *)

Lemma before_app (c : ascii) (a b : string) :
  has c a = false -> before c (a ++ b) = a ++ before c b.
Proof.
  induction a as [|x a IH]; simpl; [reflexivity|].
  destruct (Ascii.eqb x c); simpl; [discriminate|].
  intros H. now rewrite IH.
Qed.

Lemma after_app (c : ascii) (a b : string) :
  has c a = false -> after c (a ++ b) = after c b.
Proof.
  induction a as [|x a IH]; simpl; [reflexivity|].
  destruct (Ascii.eqb x c); simpl; [discriminate|exact IH].
Qed.

Lemma append_assoc (a b d : string) : (a ++ b) ++ d = a ++ b ++ d.
Proof. induction a as [|x a IH]; simpl; [reflexivity|now rewrite IH]. Qed.

Lemma length_append (a b : string) :
  String.length (a ++ b) = String.length a + String.length b.
Proof. induction a as [|x a IH]; simpl; [reflexivity|now rewrite IH]. Qed.

(** C10: splitting on one space keeps empty tokens: a text has one token
    more than it has spaces, a leading space gives an empty first token, a
    trailing space an empty last token and a doubled space an empty token in
    between.  So on a line written with spaces around the [|], stage 1 ends
    with an empty argument and the program name of stage 2 is the empty
    string. *)
Theorem C10_empty_tokens_kept (w : World) (l r : string) (n : nat) :
  has "|" l = false ->
  let cmd := l ++ " | " ++ r in
  let a1 := (split " " l ++ [EmptyString])%list in
  let a2 := EmptyString :: split " " (before "|" r) in
  (exists res n' t,
     parsing_cmd w cmd n =
       (res, n', shown_command cmd
                 :: EPrint [VStr "[EXC]"; VList a1; VStr "|"; VList a2]
                 :: EPopen n a1 None PIPE :: t)
     /\ (launchable w a1 = true ->
         exists t', t = EPopen (S n) a2 (Some n) Inherited :: t'))
  /\ nth_error a2 0 = Some EmptyString
  /\ (forall s, length (split " " s) = S (count " " s))
  /\ (forall s, split " " (String " " s) = EmptyString :: split " " s)
  /\ (forall s, split " " (s ++ " ") = (split " " s ++ [EmptyString])%list)
  /\ (forall a b, split " " (a ++ "  " ++ b)
                  = (split " " a ++ EmptyString :: split " " b)%list).
Proof.
  intros Hl cmd a1 a2.
  split; [|split; [reflexivity|split; [apply length_split|
    split; [reflexivity|split]]]].
  - assert (Ecmd : cmd = (l ++ " ") ++ String "|" (String " " r)).
    { unfold cmd. rewrite append_assoc. reflexivity. }
    assert (Hl' : has "|" (l ++ " ") = false)
      by (rewrite has_append, Hl; reflexivity).
    assert (Hb : before "|" cmd = l ++ " ").
    { rewrite Ecmd, (before_app "|" _ _ Hl'). simpl.
      now rewrite append_assoc. }
    assert (Ha : after "|" cmd = String " " r)
      by (rewrite Ecmd, (after_app "|" _ _ Hl'); reflexivity).
    assert (Hp : (1 <= find "|" cmd)%Z).
    { rewrite find_spec.
      assert (Hh : has "|" cmd = true).
      { rewrite Ecmd, has_append. simpl. apply orb_true_r. }
      rewrite Hh, Hb, length_append. simpl. lia. }
    rewrite (parsing_cmd_piped w cmd n Hp). rewrite Hb, Ha.
    assert (E1 : split " " (l ++ " ") = a1).
    { unfold a1. apply (split_app " " l EmptyString). }
    assert (E2 : split " " (before "|" (String " " r)) = a2) by reflexivity.
    rewrite E1, E2.
    destruct (launchable w a1); [destruct (launchable w a2)|].
    + eexists _, _, _. split; [reflexivity|]. intros _. now eexists.
    + eexists _, _, _. split; [reflexivity|]. intros _. now eexists.
    + eexists _, _, _. split; [reflexivity|]. discriminate.
  - intros s. apply (split_app " " s EmptyString).
  - intros a b. apply (split_app " " a (String " " b)).
Qed.

Lemma C10_witness :
  (exists res n' t,
     parsing_cmd host ("echo " ++ dq ++ "WORLD" ++ dq ++ " | cat") 0 =
       (res, n',
        shown_command ("echo " ++ dq ++ "WORLD" ++ dq ++ " | cat")
        :: EPrint [VStr "[EXC]";
                   VList ["echo"; dq ++ "WORLD" ++ dq; EmptyString];
                   VStr "|"; VList [EmptyString; "cat"]]
        :: EPopen 0 ["echo"; dq ++ "WORLD" ++ dq; EmptyString] None PIPE :: t)
     /\ (launchable host ["echo"; dq ++ "WORLD" ++ dq; EmptyString] = true ->
         exists t', t = EPopen 1 [EmptyString; "cat"] (Some 0) Inherited :: t'))
  /\ nth_error [EmptyString; "cat"] 0 = Some EmptyString.
Proof.
  pose proof (C10_empty_tokens_kept host ("echo " ++ dq ++ "WORLD" ++ dq)
                "cat" 0 eq_refl) as H.
  exact (conj (proj1 H) (proj1 (proj2 H))).
Defined.

(** ** The whole file *)

Lemma parsing_run (w : World) (name txt : string) (n : nat) :
  file_text w name = Some txt ->
  let run := parsing_loop w (split nl txt) n in
  parsing w name n =
  (outcome run, procs run,
   EPrint [VStr "[parsing start]"] :: EOpen name :: ERead name :: trace run).
Proof.
  intros H run. unfold parsing, read_file, bind, print, emit, ret.
  rewrite H. fold run. destruct run as [[r n1] t1]. reflexivity.
Qed.

Lemma parsing_loop_app (w : World) (pre l : list string) (n n1 : nat)
  (t1 : list event) :
  parsing_loop w pre n = (Ok tt, n1, t1) ->
  let run := parsing_loop w l n1 in
  parsing_loop w (pre ++ l) n = (outcome run, procs run, (t1 ++ trace run)%list).
Proof.
  revert n t1. induction pre as [|c pre IH]; intros n t1; simpl.
  - unfold ret. intros H. inversion H; subst. simpl. now rewrite run_eta.
  - unfold bind at 1 2.
    destruct (parsing_cmd w c n) as [[[[]|x] na] ta]; [|discriminate].
    destruct (parsing_loop w pre na) as [[r nb] tb] eqn:E.
    intros H. inversion H; subst.
    rewrite (IH na tb E). unfold outcome, procs, trace. simpl.
    now rewrite app_assoc.
Qed.

Lemma parsing_loop_raise (w : World) (bad : string) (post : list string)
  (n n2 : nat) (e : exn) (t2 : list event) :
  parsing_cmd w bad n = (Raise e, n2, t2) ->
  parsing_loop w (bad :: post) n = (Raise e, n2, t2).
Proof. intros H. simpl. exact (bind_raise _ _ _ _ _ _ H). Qed.

(** C7: when a line raises, whatever the reason, the run of the file ends
    with that exception: its trace is the trace of the lines before,
    unchanged, followed by what the failing line did up to the failure, and
    nothing of the lines after; the processes launched so far stay counted.
    A delay text that is not a number raises [ValueError] once the line has
    been executed, and a launch that fails raises the exception of [Popen]:
    [OSError] when the host cannot execute the program, [TypeError] when an
    argument holds a NUL byte. *)
Theorem C7_failure_stops_batch
  (w : World) (name txt : string) (pre : list string) (bad : string)
  (post : list string) (n n1 n2 : nat) (t1 t2 : list event) (e : exn) :
  file_text w name = Some txt ->
  split nl txt = (pre ++ bad :: post)%list ->
  parsing_loop w pre n = (Ok tt, n1, t1) ->
  parsing_cmd w bad n1 = (Raise e, n2, t2) ->
  parsing w name n =
    (Raise e, n2,
     ([EPrint [VStr "[parsing start]"]; EOpen name; ERead name]
      ++ t1 ++ t2)%list)
  /\ n <= n1 <= n2
  /\ (forall l m,
        has "@" l = true ->
        PyFloat.float (before "@" (after "@" l)) = None ->
        outcome (execute w l (find "|" l) m) = Ok tt ->
        outcome (parsing_cmd w l m) = Raise ValueError)
  /\ (forall l m,
        l <> EmptyString -> (find "|" l < 1)%Z ->
        launchable w (split " " l) = false ->
        outcome (parsing_cmd w l m) = Raise (launch_error (split " " l)))
  /\ (forall l m,
        (1 <= find "|" l)%Z ->
        let a1 := split " " (before "|" l) in
        let a2 := split " " (before "|" (after "|" l)) in
        (launchable w a1 = false ->
         outcome (parsing_cmd w l m) = Raise (launch_error a1))
        /\ (launchable w a1 = true -> launchable w a2 = false ->
            outcome (parsing_cmd w l m) = Raise (launch_error a2)))
  /\ (forall argv,
        has_nul argv = false ->
        launch_error argv = OSError
        /\ (spawnable w argv = false -> launchable w argv = false)).
Proof.
  intros Hfile Hsplit Hpre Hbad.
  split; [|split; [|split; [|split; [|split]]]].
  - rewrite (parsing_run w name txt n Hfile), Hsplit.
    rewrite (parsing_loop_app w pre (bad :: post) n n1 t1 Hpre).
    rewrite (parsing_loop_raise w bad post n1 n2 e t2 Hbad). reflexivity.
  - pose proof (parsing_loop_procs w pre n) as H1.
    pose proof (parsing_cmd_procs w bad n1) as H2.
    rewrite Hpre in H1. rewrite Hbad in H2. unfold procs in *. simpl in *. lia.
  - intros l m Hat Hfloat Hexec.
    rewrite (parsing_cmd_with_delay w l m Hat), Hexec, Hfloat. reflexivity.
  - intros l m Hne Hp Hl. apply Z.ltb_lt in Hp.
    rewrite (parsing_cmd_single w l m (truthy_nonempty _ Hne) Hp), Hl.
    reflexivity.
  - intros l m Hp a1 a2. rewrite (parsing_cmd_piped w l m Hp). fold a1 a2.
    split.
    + intros H1. now rewrite H1.
    + intros H1 H2. now rewrite H1, H2.
  - intros argv Hnul. unfold launch_error, launchable. rewrite Hnul.
    split; [reflexivity|]. intros H. now rewrite H.
Qed.

Lemma C7_witness :
  parsing host "broken.txt" 0 =
    (Raise OSError, 1,
     [EPrint [VStr "[parsing start]"]; EOpen "broken.txt"; ERead "broken.txt";
      shown_command "echo a"; EPrint [VStr "[EXC]"; VList ["echo"; "a"]];
      EPopen 0 ["echo"; "a"] None Inherited;
      shown_command "nosuch"; EPrint [VStr "[EXC]"; VList ["nosuch"]];
      EPopen 1 ["nosuch"] None Inherited])
  /\ parsing host "baddelay.txt" 0 =
    (Raise ValueError, 2,
     [EPrint [VStr "[parsing start]"]; EOpen "baddelay.txt";
      ERead "baddelay.txt";
      shown_command "echo a"; EPrint [VStr "[EXC]"; VList ["echo"; "a"]];
      EPopen 0 ["echo"; "a"] None Inherited;
      shown_command "echo b @soon";
      EPrint [VStr "[EXC]"; VList ["echo"; "b"; "@soon"]];
      EPopen 1 ["echo"; "b"; "@soon"] None Inherited;
      shown_waiting ["echo b "; "soon"]]).
Proof.
  split.
  - exact (proj1 (C7_failure_stops_batch host "broken.txt"
             (lines ["echo a"; "nosuch"; "echo b"])
             ["echo a"] "nosuch" ["echo b"] 0 1 1
             [shown_command "echo a";
              EPrint [VStr "[EXC]"; VList ["echo"; "a"]];
              EPopen 0 ["echo"; "a"] None Inherited]
             [shown_command "nosuch"; EPrint [VStr "[EXC]"; VList ["nosuch"]];
              EPopen 1 ["nosuch"] None Inherited]
             OSError eq_refl eq_refl eq_refl eq_refl)).
  - exact (proj1 (C7_failure_stops_batch host "baddelay.txt"
             (lines ["echo a"; "echo b @soon"; "echo c"])
             ["echo a"] "echo b @soon" ["echo c"] 0 1 2
             [shown_command "echo a";
              EPrint [VStr "[EXC]"; VList ["echo"; "a"]];
              EPopen 0 ["echo"; "a"] None Inherited]
             [shown_command "echo b @soon";
              EPrint [VStr "[EXC]"; VList ["echo"; "b"; "@soon"]];
              EPopen 1 ["echo"; "b"; "@soon"] None Inherited;
              shown_waiting ["echo b "; "soon"]]
             ValueError eq_refl eq_refl eq_refl eq_refl)).
Defined.

Lemma parsing_loop_skips_blank (w : World) (l : list string) (n : nat) :
  parsing_loop w l n = parsing_loop w (filter truthy l) n.
Proof.
  revert n. induction l as [|cmd rest IH]; intros n; [reflexivity|].
  destruct cmd as [|c s].
  - simpl filter. rewrite <- IH. simpl parsing_loop.
    change (parsing_cmd w EmptyString) with (@ret unit tt).
    now rewrite bind_ret.
  - simpl. unfold bind.
    destruct (parsing_cmd w (String c s) n) as [[[[]|x] n1] t1];
      [|reflexivity].
    now rewrite IH.
Qed.

(** C8: an empty line makes no call at all, so it launches nothing and
    does not sleep; a run is the same with its empty lines taken out; and
    the run of an empty file only prints the start line and reads the
    file. *)
Theorem C8_blank_lines_skipped (w : World) :
  (forall n, parsing_cmd w EmptyString n = (Ok tt, n, []))
  /\ (forall l n, parsing_loop w l n = parsing_loop w (filter truthy l) n)
  /\ (forall l n,
        filter truthy l = [] -> parsing_loop w l n = (Ok tt, n, []))
  /\ (forall name n,
        file_text w name = Some EmptyString ->
        parsing w name n =
          (Ok tt, n,
           [EPrint [VStr "[parsing start]"]; EOpen name; ERead name])).
Proof.
  split; [reflexivity|]. split; [apply parsing_loop_skips_blank|].
  split.
  - intros l n H. now rewrite parsing_loop_skips_blank, H.
  - intros name n H. now rewrite (parsing_run w name EmptyString n H).
Qed.

Lemma C8_witness :
  parsing host "empty.txt" 0 =
    (Ok tt, 0,
     [EPrint [VStr "[parsing start]"]; EOpen "empty.txt"; ERead "empty.txt"])
  /\ parsing_loop host [EmptyString; EmptyString; EmptyString] 0 = (Ok tt, 0, []).
Proof.
  pose proof (C8_blank_lines_skipped host) as H.
  split.
  - exact (proj2 (proj2 (proj2 H)) "empty.txt" 0 eq_refl).
  - exact (proj1 (proj2 (proj2 H)) [EmptyString; EmptyString; EmptyString]
             0 eq_refl).
Defined.

(** Only the empty line is skipped: a line of spaces is a command, whose
    tokens are all empty. *)
Fact line_of_spaces_is_run :
  parsing_cmd host "  " 0 =
    (Raise OSError, 0,
     [shown_command "  ";
      EPrint [VStr "[EXC]"; VList [EmptyString; EmptyString; EmptyString]];
      EPopen 0 [EmptyString; EmptyString; EmptyString] None Inherited]).
Proof. reflexivity. Qed.

(** A line with a NUL byte is dispatched like any other, and its launch
    raises [TypeError] whatever the host. *)
Fact nul_byte_line_raises_type_error (w : World) (n : nat) :
  parsing_cmd w ("echo a" ++ String nul EmptyString) n =
    (Raise TypeError, n,
     [shown_command ("echo a" ++ String nul EmptyString);
      EPrint [VStr "[EXC]"; VList ["echo"; String "a" (String nul EmptyString)]];
      EPopen n ["echo"; String "a" (String nul EmptyString)] None Inherited]).
Proof. reflexivity. Qed.

(** ** The script on its usage text *)

Fact float_examples :
  PyFloat.float "10" = Some (PyFloat.Num false 10 0)
  /\ PyFloat.float " -2.50e1 " = Some (PyFloat.Num true 250 (-1))
  /\ PyFloat.float "+Infinity" = Some (PyFloat.Inf false)
  /\ PyFloat.float "1@2" = None
  /\ PyFloat.float EmptyString = None
  /\ PyFloat.float "1e" = None
  /\ PyFloat.float "." = None.
Proof. repeat split; reflexivity. Qed.

(** The first three lines of the usage text run as the text says; on a host
    where a program with an empty name cannot be launched, the fourth one,
    written with spaces around the [|], launches [echo] and then raises when
    it launches stage 2, whose program name is empty. *)
Fact usage_file_run :
  main host ["batch_exec.py"; "usage.txt"] 0 =
    (Raise OSError, 4,
     [EPrint [VStr "[parsing start]"]; EOpen "usage.txt"; ERead "usage.txt";
      shown_command ("echo " ++ dq ++ "HELLO" ++ dq);
      EPrint [VStr "[EXC]"; VList ["echo"; dq ++ "HELLO" ++ dq]];
      EPopen 0 ["echo"; dq ++ "HELLO" ++ dq] None Inherited;
      shown_command ("echo " ++ dq ++ "HELLO" ++ dq ++ " @10");
      EPrint [VStr "[EXC]"; VList ["echo"; dq ++ "HELLO" ++ dq; "@10"]];
      EPopen 1 ["echo"; dq ++ "HELLO" ++ dq; "@10"] None Inherited;
      shown_waiting ["echo " ++ dq ++ "HELLO" ++ dq ++ " "; "10"];
      ESleep (PyFloat.Num false 10 0);
      shown_command "ping google.com -t 256";
      EPrint [VStr "[EXC]"; VList ["ping"; "google.com"; "-t"; "256"]];
      EPopen 2 ["ping"; "google.com"; "-t"; "256"] None Inherited;
      shown_command ("echo " ++ dq ++ "WORLD" ++ dq ++ " | cat");
      EPrint [VStr "[EXC]";
              VList ["echo"; dq ++ "WORLD" ++ dq; EmptyString];
              VStr "|"; VList [EmptyString; "cat"]];
      EPopen 3 ["echo"; dq ++ "WORLD" ++ dq; EmptyString] None PIPE;
      EPopen 4 [EmptyString; "cat"] (Some 3) Inherited]).
Proof. reflexivity. Qed.

(** The indexing of [excs] and [wait_time] and the [close] of the pipe never
    fail: a line raises nothing but what [Popen], [float] and [time.sleep]
    raise. *)
Lemma parsing_cmd_exceptions (w : World) (cmd : string) (n : nat) (e : exn) :
  outcome (parsing_cmd w cmd n) = Raise e ->
  e = OSError \/ e = TypeError \/ e = ValueError \/ e = IOError.
Proof.
  destruct (truthy cmd) eqn:Ht;
    [|unfold parsing_cmd; rewrite Ht; cbv; discriminate].
  assert (Hw : forall m, outcome (waiting w (split "@" cmd) m) = Raise e ->
             e = OSError \/ e = TypeError \/ e = ValueError \/ e = IOError).
  { intros m. rewrite waiting_run. destruct (has "@" cmd); [|discriminate].
    destruct (PyFloat.float _) as [secs|]; unfold outcome; simpl.
    - destruct (sleepable w secs); [discriminate|].
      intros H. inversion H. tauto.
    - intros H. inversion H. tauto. }
  destruct (find "|" cmd <? 1)%Z eqn:Hp.
  - rewrite (parsing_cmd_single w cmd n Ht Hp).
    destruct (launchable w _); unfold outcome at 1; simpl; [apply Hw|].
    intros H. inversion H. unfold launch_error. destruct (has_nul _); tauto.
  - apply Z.ltb_ge in Hp. rewrite (parsing_cmd_piped w cmd n Hp).
    destruct (launchable w _); [destruct (launchable w _)|];
      unfold outcome at 1; simpl; [apply Hw| |];
      intros H; inversion H; unfold launch_error; destruct (has_nul _); tauto.
Qed.

(** * More of the script *)

(** ** Tokens and the text they come from *)

Lemma split_tokens_sub (c d : ascii) (s tok : string) :
  In tok (split d s) -> has c tok = true -> has c s = true.
Proof.
  revert tok. induction s as [|a r IH]; intros tok; simpl.
  - intros [<-|[]]. discriminate.
  - destruct (Ascii.eqb a d).
    + intros [<-|H] Hc; [discriminate Hc|].
      rewrite (IH tok H Hc). apply orb_true_r.
    + destruct (split d r) as [|h t] eqn:E;
        [exfalso; exact (split_not_nil d r E)|].
      intros [<-|H] Hc.
      * simpl in Hc. apply orb_true_iff in Hc. destruct Hc as [Hc|Hc].
        -- now rewrite Hc.
        -- rewrite (IH h (or_introl eq_refl) Hc). apply orb_true_r.
      * rewrite (IH tok (or_intror H) Hc). apply orb_true_r.
Qed.

Lemma split_tokens_no_sep (d : ascii) (s tok : string) :
  In tok (split d s) -> has d tok = false.
Proof.
  revert tok. induction s as [|a r IH]; intros tok; simpl.
  - intros [<-|[]]. reflexivity.
  - destruct (Ascii.eqb a d) eqn:Ead.
    + intros [<-|H]; [reflexivity|exact (IH tok H)].
    + destruct (split d r) as [|h t] eqn:E;
        [exfalso; exact (split_not_nil d r E)|].
      intros [<-|H].
      * simpl. rewrite Ead. exact (IH h (or_introl eq_refl)).
      * exact (IH tok (or_intror H)).
Qed.

Lemma has_before_sub (c d : ascii) (s : string) :
  has c (before d s) = true -> has c s = true.
Proof.
  induction s as [|a r IH]; simpl; [discriminate|].
  destruct (Ascii.eqb a d); simpl; [discriminate|].
  intros H. apply orb_true_iff in H. destruct H as [H|H].
  - now rewrite H.
  - rewrite (IH H). apply orb_true_r.
Qed.

Lemma has_after_sub (c d : ascii) (s : string) :
  has c (after d s) = true -> has c s = true.
Proof.
  induction s as [|a r IH]; simpl; [discriminate|].
  destruct (Ascii.eqb a d).
  - intros H. rewrite H. apply orb_true_r.
  - intros H. rewrite (IH H). apply orb_true_r.
Qed.

Lemma split_join (d : ascii) (l : list string) :
  l <> [] ->
  (forall tok, In tok l -> has d tok = false) ->
  split d (join (String d EmptyString) l) = l.
Proof.
  induction l as [|x t IH]; [congruence|]. intros _ Hall.
  destruct t as [|y t].
  - simpl. apply split_no_sep. apply Hall. now left.
  - change (join (String d EmptyString) (x :: y :: t))
      with (x ++ String d (join (String d EmptyString) (y :: t))).
    rewrite split_app, IH; [|discriminate|intros tok H; apply Hall; now right].
    rewrite (split_no_sep d x); [reflexivity|apply Hall; now left].
Qed.

Lemma has_join_none (c d : ascii) (l : list string) :
  Ascii.eqb d c = false ->
  (forall tok, In tok l -> has c tok = false) ->
  has c (join (String d EmptyString) l) = false.
Proof.
  intros Hd Hall.
  destruct (has c (join (String d EmptyString) l)) eqn:E; [|reflexivity].
  destruct (has_join c d l Hd E) as [tok [Hin Htok]].
  rewrite (Hall tok Hin) in Htok. discriminate.
Qed.

(** ** Lifting a fact about lines to a run *)

Lemma in_trace_bind_l {A B} (m : M A) (f : A -> M B) (n : nat) (e : event) :
  In e (trace (m n)) -> In e (trace (bind m f n)).
Proof.
  unfold bind, trace. destruct (m n) as [[[a|x] n1] t1]; simpl; [|tauto].
  destruct (f a n1) as [[r n2] t2]; simpl. intros H. apply in_or_app. now left.
Qed.

Lemma in_trace_bind_r {A B} (m : M A) (f : A -> M B) (n : nat) (e : event) a :
  outcome (m n) = Ok a -> In e (trace (f a (procs (m n)))) ->
  In e (trace (bind m f n)).
Proof.
  unfold bind, trace, outcome, procs.
  destruct (m n) as [[[a'|x] n1] t1]; simpl; [|discriminate].
  intros H. inversion H; subst.
  destruct (f a n1) as [[r n2] t2]; simpl. intros Hin.
  apply in_or_app. now right.
Qed.

Lemma parsing_loop_events (P : event -> Prop) (w : World)
  (l : list string) (n : nat) :
  (forall cmd m e, In cmd l -> In e (trace (parsing_cmd w cmd m)) -> P e) ->
  forall e, In e (trace (parsing_loop w l n)) -> P e.
Proof.
  revert n. induction l as [|cmd rest IH]; intros n Hline e; [cbv; tauto|].
  simpl. intros H. apply in_trace_bind in H. destruct H as [H|[a [_ H]]].
  - exact (Hline cmd n e (or_introl eq_refl) H).
  - apply (IH _ (fun c m e' Hc => Hline c m e' (or_intror Hc)) e H).
Qed.

Lemma parsing_cases (w : World) (name : string) (n : nat) :
  (file_text w name = None
   /\ parsing w name n = (Raise IOError, n, [shown_start; EOpen name]))
  \/ exists txt,
       file_text w name = Some txt
       /\ parsing w name n =
            (outcome (parsing_loop w (split nl txt) n),
             procs (parsing_loop w (split nl txt) n),
             shown_start :: EOpen name :: ERead name
             :: trace (parsing_loop w (split nl txt) n)).
Proof.
  destruct (file_text w name) as [txt|] eqn:E.
  - right. exists txt. split; [reflexivity|]. exact (parsing_run w name txt n E).
  - left. split; [reflexivity|].
    unfold parsing, read_file, bind, print, emit, raise. now rewrite E.
Qed.

Lemma main_cases (w : World) (argv : list string) (n : nat) :
  main w argv n =
  match argv with
  | [] => (Ok tt, n, [])
  | [_] => (Ok tt, n, [shown_usage])
  | _ :: file_name :: _ => parsing w file_name n
  end.
Proof.
  destruct argv as [|script [|file_name extra]]; [reflexivity|reflexivity|].
  unfold main. simpl length. cbn [Nat.eqb Nat.ltb Nat.leb].
  rewrite bind_ret. unfold index. cbn [nth_error]. now rewrite bind_ret.
Qed.

Lemma bind_run {A B} (m : M A) (f : A -> M B) (n : nat) :
  bind m f n =
  match outcome (m n) with
  | Ok a =>
      (outcome (f a (procs (m n))), procs (f a (procs (m n))),
       (trace (m n) ++ trace (f a (procs (m n))))%list)
  | Raise e => (Raise e, procs (m n), trace (m n))
  end.
Proof.
  unfold bind, outcome, procs, trace.
  destruct (m n) as [[[a|x] n1] t1]; simpl; [|reflexivity].
  destruct (f a n1) as [[r n2] t2]. reflexivity.
Qed.

Lemma count_events_app (f : event -> bool) (a b : list event) :
  count_events f (a ++ b) = count_events f a + count_events f b.
Proof. unfold count_events. now rewrite filter_app, length_app. Qed.

(** Splits the run of one line into the cases of the source: the empty
    line, one command or a pipe, each launch succeeding or not, and the
    delay absent, a number the host accepts or not, or not a number. *)
Ltac line_cases w cmd n :=
  let Ht := fresh "Ht" in
  let Hp := fresh "Hp" in
  destruct (truthy cmd) eqn:Ht;
  [ destruct (find "|" cmd <? 1)%Z eqn:Hp;
    [ rewrite (parsing_cmd_single w cmd n Ht Hp)
    | apply Z.ltb_ge in Hp; rewrite (parsing_cmd_piped w cmd n Hp) ];
    cbv zeta; rewrite ?waiting_run;
    repeat lazymatch goal with
           | |- context [launchable w ?a] =>
               let Hl := fresh "Hl" in destruct (launchable w a) eqn:Hl
           end;
    let Hat := fresh "Hat" in
    destruct (has "@" cmd) eqn:Hat;
    try lazymatch goal with
        | |- context [PyFloat.float ?s] =>
            let secs := fresh "secs" in
            let Hf := fresh "Hf" in
            let Hs := fresh "Hs" in
            destruct (PyFloat.float s) as [secs|] eqn:Hf;
            [destruct (sleepable w secs) eqn:Hs|]
        end
  | unfold parsing_cmd; rewrite Ht ];
  unfold outcome, procs, trace; cbn [fst snd app].

(** Splits a failed launch into its two exceptions. *)
Ltac launch_error_cases :=
  unfold launch_error;
  repeat lazymatch goal with
         | |- context [if has_nul ?a then _ else _] => destruct (has_nul a)
         end.

(** ** The command line and the file *)

(** X1: without an argument the script only prints its usage line; with
    arguments it runs the file named by the first one, whatever follows it,
    and prints no usage; when that file cannot be read the run stops with
    [IOError] after the start line, before any line is run. *)
Theorem main_command_line (w : World) (n : nat) :
  (forall script, main w [script] n = (Ok tt, n, [shown_usage]))
  /\ (forall script file_name extra,
        main w (script :: file_name :: extra) n = parsing w file_name n)
  /\ (forall script file_name extra,
        file_text w file_name = None ->
        main w (script :: file_name :: extra) n =
          (Raise IOError, n, [shown_start; EOpen file_name])).
Proof.
  split; [intros; apply main_cases|]. split; [intros; apply main_cases|].
  intros script file_name extra H. rewrite main_cases.
  destruct (parsing_cases w file_name n) as [[_ E]|[txt [E _]]];
    [exact E|congruence].
Qed.

Lemma main_command_line_witness :
  main host ["batch_exec.py"; "missing.txt"; "more"] 0 =
    (Raise IOError, 0, [shown_start; EOpen "missing.txt"]).
Proof.
  exact (proj2 (proj2 (main_command_line host 0))
           "batch_exec.py" "missing.txt" ["more"] eq_refl).
Defined.

(** ** What a run can raise *)

Lemma parsing_loop_exceptions (w : World) (l : list string) (n : nat) e :
  outcome (parsing_loop w l n) = Raise e ->
  e = OSError \/ e = TypeError \/ e = ValueError \/ e = IOError.
Proof.
  revert n. induction l as [|cmd rest IH]; intros n; [cbv; discriminate|].
  simpl. rewrite bind_run.
  destruct (outcome (parsing_cmd w cmd n)) as [[]|x] eqn:E.
  - run_proj. apply IH.
  - run_proj. intros H. inversion H; subst.
    exact (parsing_cmd_exceptions w cmd n e E).
Qed.

(** X2: the script ends normally or with an exception of [Popen]
    ([OSError], or [TypeError] for an argument with a NUL byte), of [float]
    ([ValueError]) or of the file and the sleep ([IOError]): the indexing of
    [sys.argv], [excs] and [wait_time] and the closing of the pipe never
    fail. *)
Theorem main_outcomes (w : World) (argv : list string) (n : nat) :
  outcome (main w argv n) = Ok tt
  \/ outcome (main w argv n) = Raise OSError
  \/ outcome (main w argv n) = Raise TypeError
  \/ outcome (main w argv n) = Raise ValueError
  \/ outcome (main w argv n) = Raise IOError.
Proof.
  rewrite main_cases.
  destruct argv as [|script [|file_name extra]]; [now left|now left|].
  destruct (parsing_cases w file_name n) as [[_ E]|[txt [_ E]]]; rewrite E.
  - right. right. right. now right.
  - run_proj.
    destruct (outcome (parsing_loop w (split nl txt) n)) as [[]|e] eqn:Ho;
      [now left|].
    destruct (parsing_loop_exceptions w _ n e Ho)
      as [-> | [-> | [-> | ->]]]; tauto.
Qed.

(** ** Counting launches *)

Lemma parsing_cmd_launches (w : World) (cmd : string) (n : nat) :
  count_events is_launch (trace (parsing_cmd w cmd n)) + n
  = procs (parsing_cmd w cmd n) + failed_launch (outcome (parsing_cmd w cmd n)).
Proof. line_cases w cmd n; launch_error_cases; cbn; lia. Qed.

Lemma parsing_loop_launches (w : World) (l : list string) (n : nat) :
  count_events is_launch (trace (parsing_loop w l n)) + n
  = procs (parsing_loop w l n)
    + failed_launch (outcome (parsing_loop w l n)).
Proof.
  revert n. induction l as [|cmd rest IH]; intros n; [cbn; lia|].
  simpl. rewrite bind_run.
  pose proof (parsing_cmd_launches w cmd n) as Hc.
  destruct (outcome (parsing_cmd w cmd n)) as [[]|x] eqn:E.
  - run_proj.
    rewrite count_events_app. specialize (IH (procs (parsing_cmd w cmd n))).
    simpl in Hc. lia.
  - run_proj. exact Hc.
Qed.

(** X3: in a run of the script every call of [Popen] launches a process,
    except the one that ends the run with an exception of [Popen]
    ([OSError], or [TypeError] for an argument with a NUL byte): the number
    of [Popen] calls is the number of processes launched, plus one when the
    run ended with such an exception; and the count of processes never goes
    down. *)
Theorem main_launch_count (w : World) (argv : list string) (n : nat) :
  count_events is_launch (trace (main w argv n)) + n
  = procs (main w argv n) + failed_launch (outcome (main w argv n))
  /\ n <= procs (main w argv n).
Proof.
  rewrite main_cases.
  destruct argv as [|script [|file_name extra]];
    [cbn; lia|cbn; lia|].
  destruct (parsing_cases w file_name n) as [[_ E]|[txt [_ E]]]; rewrite E.
  - cbn. lia.
  - run_proj.
    pose proof (parsing_loop_launches w (split nl txt) n) as H.
    pose proof (parsing_loop_procs w (split nl txt) n) as H'.
    split; [|exact H'].
    change (count_events is_launch
              (shown_start :: EOpen file_name :: ERead file_name
               :: trace (parsing_loop w (split nl txt) n)))
      with (count_events is_launch (trace (parsing_loop w (split nl txt) n))).
    exact H.
Qed.

(** ** The arguments a program can get *)

Lemma launched_argv_cmd (w : World) (cmd : string) (m p : nat)
  (argv : list string) (i : option nat) (o : stdout_arg) :
  In (EPopen p argv i o) (trace (parsing_cmd w cmd m)) ->
  exists seg, argv = split " " seg
              /\ forall c, has c seg = true -> has c cmd = true.
Proof.
  line_cases w cmd m; unfold shown_command, shown_waiting;
    intros H; simpl in H;
    repeat (destruct H as [H|H]; [try discriminate H|]);
    try contradiction;
    inversion H; subst; eexists; (split; [reflexivity|]); intros c Hc;
    eauto using has_before_sub, has_after_sub.
Qed.

(** X4: whatever the file holds, a program is never launched with an empty
    argument vector, and no argument it gets contains a space or a line
    break: the script has no way to pass such an argument. *)
Theorem launched_arguments_have_no_space
  (w : World) (name : string) (n p : nat) (argv : list string)
  (i : option nat) (o : stdout_arg) :
  In (EPopen p argv i o) (trace (parsing w name n)) ->
  argv <> []
  /\ forall tok, In tok argv -> has " " tok = false /\ has nl tok = false.
Proof.
  destruct (parsing_cases w name n) as [[_ E]|[txt [_ E]]]; rewrite E; run_proj.
  - intros [H|[H|[]]]; discriminate H.
  - intros [H|[H|[H|H]]]; try discriminate H.
    pose proof (parsing_loop_events
      (fun e => forall p argv i o, e = EPopen p argv i o ->
         exists cmd seg, In cmd (split nl txt) /\ argv = split " " seg
           /\ forall c, has c seg = true -> has c cmd = true)
      w (split nl txt) n) as Hall.
    destruct (Hall (fun cmd m e Hin He p' argv' i' o' Heq =>
                ltac:(subst e; destruct (launched_argv_cmd w cmd m _ _ _ _ He)
                        as [seg Hseg]; exists cmd, seg; tauto))
                _ H p argv i o eq_refl) as [cmd [seg [Hcmd [-> Hsub]]]].
    split; [apply split_not_nil|].
    intros tok Htok. split; [exact (split_tokens_no_sep " " seg tok Htok)|].
    destruct (has nl tok) eqn:Hnl; [|reflexivity].
    pose proof (Hsub nl (split_tokens_sub nl " " seg tok Htok Hnl)) as Hc.
    rewrite (split_tokens_no_sep nl txt cmd Hcmd) in Hc. discriminate.
Qed.

Lemma launched_arguments_have_no_space_witness :
  ["echo"; dq ++ "HELLO" ++ dq; "@10"] <> []
  /\ forall tok, In tok ["echo"; dq ++ "HELLO" ++ dq; "@10"] ->
                 has " " tok = false /\ has nl tok = false.
Proof.
  apply (launched_arguments_have_no_space host "usage.txt" 0 1 _ None Inherited).
  vm_compute. tauto.
Defined.

(** ** Runs compose *)

(** X5: running two texts joined by a line break is running the lines of
    the first and then, if none of them raised, the lines of the second,
    with the processes numbered on; if a line of the first raised, the run
    is that of the first alone. *)
Theorem joined_texts_run_in_sequence (w : World) (a b : string) (n : nat) :
  let r1 := parsing_loop w (split nl a) n in
  let r2 := parsing_loop w (split nl b) (procs r1) in
  parsing_loop w (split nl (a ++ String nl b)) n =
  match outcome r1 with
  | Ok _ => (outcome r2, procs r2, (trace r1 ++ trace r2)%list)
  | Raise _ => r1
  end.
Proof.
  intros r1 r2. subst r1 r2. rewrite split_app.
  generalize (split nl a) as l1. generalize (split nl b) as l2.
  intros l2 l1. revert n.
  induction l1 as [|cmd rest IH]; intros n.
  - simpl app. change (parsing_loop w [] n) with (Ok tt, n, @nil event).
    run_proj. simpl app. now rewrite run_eta.
  - simpl. rewrite !bind_run.
    destruct (outcome (parsing_cmd w cmd n)) as [[]|x] eqn:E; run_proj.
    + rewrite IH.
      destruct (outcome (parsing_loop w rest (procs (parsing_cmd w cmd n))))
        as [[]|y] eqn:E2; run_proj; rewrite ?E2;
        [now rewrite app_assoc|reflexivity].
    + reflexivity.
Qed.

(** X6: line breaks that make empty lines do not matter: a text runs the
    same with a line break added at its end or at its start, or with a line
    break doubled anywhere. *)
Theorem extra_line_breaks_ignored (w : World) (a b : string) (n : nat) :
  parsing_loop w (split nl (a ++ String nl EmptyString)) n
    = parsing_loop w (split nl a) n
  /\ parsing_loop w (split nl (String nl a)) n = parsing_loop w (split nl a) n
  /\ parsing_loop w (split nl (a ++ String nl (String nl b))) n
     = parsing_loop w (split nl (a ++ String nl b)) n.
Proof.
  split; [|split].
  - rewrite (parsing_loop_skips_blank w (split nl (a ++ _))).
    rewrite (parsing_loop_skips_blank w (split nl a)).
    rewrite split_app, filter_app. simpl. now rewrite app_nil_r.
  - rewrite (parsing_loop_skips_blank w (split nl (String nl a))).
    rewrite (parsing_loop_skips_blank w (split nl a)). reflexivity.
  - rewrite (parsing_loop_skips_blank w (split nl (a ++ String nl (String nl b)))).
    rewrite (parsing_loop_skips_blank w (split nl (a ++ String nl b))).
    rewrite !split_app, !filter_app. reflexivity.
Qed.

(** ** Lines that say exactly what to launch *)

Lemma parsing_cmd_no_delay (w : World) (cmd : string) (n : nat) :
  truthy cmd = true ->
  has "@" cmd = false ->
  let step := execute w cmd (find "|" cmd) n in
  parsing_cmd w cmd n = (outcome step, procs step, shown_command cmd :: trace step).
Proof.
  intros Ht Hat step.
  destruct step as [[[[]|e] n1] t1] eqn:E; run_proj.
  - rewrite (parsing_cmd_ok w cmd n n1 t1 Ht E), waiting_run, Hat. run_proj.
    now rewrite app_nil_r.
  - exact (parsing_cmd_raise w cmd n n1 e t1 Ht E).
Qed.

Lemma join_not_empty (d : ascii) (l : list string) :
  l <> [] -> l <> [EmptyString] -> join (String d EmptyString) l <> EmptyString.
Proof.
  destruct l as [|x [|y t]]; [congruence| |].
  - simpl. intros _ H E. apply H. now rewrite E.
  - intros _ _. simpl. destruct x; discriminate.
Qed.

Lemma parsing_loop_single (w : World) (cmd : string) (n : nat) :
  parsing_loop w [cmd] n = parsing_cmd w cmd n.
Proof.
  simpl. rewrite bind_run.
  destruct (parsing_cmd w cmd n) as [[[[]|e] n1] t1]; run_proj;
    [|reflexivity].
  cbn. now rewrite app_nil_r.
Qed.

(** X7: an argument vector whose arguments contain no space, [|], [@] or
    line break, other than the vector of one empty argument, can be written
    as a line of a file: its arguments joined by spaces make one line, which
    runs as [_exc] on exactly that vector; and that line, a [|] and such a
    line for a second vector make one line, which runs as [_piped_exc] on
    exactly the two vectors. *)
Theorem clean_vectors_run_as_written
  (w : World) (a1 : list string) (n : nat) :
  a1 <> [] -> a1 <> [EmptyString] ->
  (forall tok, In tok a1 ->
     has " " tok = false /\ has "|" tok = false /\ has "@" tok = false
     /\ has nl tok = false) ->
  (let line := join " " a1 in
   let r := _exc w a1 n in
   split nl line = [line]
   /\ parsing_loop w (split nl line) n
      = (outcome r, procs r, shown_command line :: trace r))
  /\ (forall a2,
        a2 <> [] ->
        (forall tok, In tok a2 ->
           has " " tok = false /\ has "|" tok = false /\ has "@" tok = false
           /\ has nl tok = false) ->
        let line := join " " a1 ++ String "|" (join " " a2) in
        let r := _piped_exc w a1 a2 n in
        split nl line = [line]
        /\ parsing_loop w (split nl line) n
           = (outcome r, procs r, shown_command line :: trace r)).
Proof.
  intros Hne Hne' Hclean.
  assert (Hs1 : split " " (join " " a1) = a1)
    by (apply split_join; [exact Hne|intros tok H; apply (Hclean tok H)]).
  assert (Hp1 : has "|" (join " " a1) = false)
    by (apply has_join_none; [reflexivity|intros tok H; apply (Hclean tok H)]).
  assert (Ha1 : has "@" (join " " a1) = false)
    by (apply has_join_none; [reflexivity|intros tok H; apply (Hclean tok H)]).
  assert (Hn1 : has nl (join " " a1) = false)
    by (apply has_join_none; [reflexivity|intros tok H; apply (Hclean tok H)]).
  pose proof (join_not_empty " " a1 Hne Hne') as Hj.
  split.
  - intros line r. subst line r.
    rewrite (split_no_sep nl _ Hn1). split; [reflexivity|].
    rewrite parsing_loop_single.
    rewrite (parsing_cmd_no_delay w _ n (truthy_nonempty _ Hj) Ha1).
    rewrite execute_single by (apply find_lt_1; now left).
    now rewrite Hs1.
  - intros a2 Hne2 Hclean2 line r. subst line r.
    assert (Hs2 : split " " (join " " a2) = a2)
      by (apply split_join; [exact Hne2|intros tok H; apply (Hclean2 tok H)]).
    assert (Hp2 : has "|" (join " " a2) = false)
      by (apply has_join_none; [reflexivity|intros tok H; apply (Hclean2 tok H)]).
    assert (Ha2 : has "@" (join " " a2) = false)
      by (apply has_join_none; [reflexivity|intros tok H; apply (Hclean2 tok H)]).
    assert (Hn2 : has nl (join " " a2) = false)
      by (apply has_join_none; [reflexivity|intros tok H; apply (Hclean2 tok H)]).
    set (line := join " " a1 ++ String "|" (join " " a2)).
    assert (Hb : before "|" line = join " " a1).
    { unfold line. rewrite (before_app "|" _ _ Hp1). simpl.
      clear. induction (join " " a1) as [|x s IH]; simpl; [reflexivity|].
      now rewrite IH. }
    assert (Haf : after "|" line = join " " a2)
      by (unfold line; now rewrite (after_app "|" _ _ Hp1)).
    assert (Hfind : (1 <= find "|" line)%Z).
    { rewrite find_spec.
      assert (Hh : has "|" line = true)
        by (unfold line; rewrite has_append; simpl; apply orb_true_r).
      rewrite Hh, Hb. destruct (join " " a1); [congruence|simpl; lia]. }
    assert (Hat : has "@" line = false)
      by (unfold line; rewrite has_append, Ha1; simpl; exact Ha2).
    assert (Hnl : has nl line = false)
      by (unfold line; rewrite has_append, Hn1; simpl; exact Hn2).
    assert (Ht : truthy line = true)
      by (apply (has_truthy "|"); apply find_has; lia).
    rewrite (split_no_sep nl _ Hnl). split; [reflexivity|].
    rewrite parsing_loop_single.
    rewrite (parsing_cmd_no_delay w line n Ht Hat).
    rewrite (execute_piped w line n Hfind), Hb, Haf.
    rewrite (before_no_sep "|" _ Hp2), Hs1, Hs2. reflexivity.
Qed.

Lemma clean_vectors_run_as_written_witness :
  parsing_loop host (split nl "ping google.com -t 256") 0 =
    (Ok tt, 1,
     [shown_command "ping google.com -t 256";
      EPrint [VStr "[EXC]"; VList ["ping"; "google.com"; "-t"; "256"]];
      EPopen 0 ["ping"; "google.com"; "-t"; "256"] None Inherited])
  /\ parsing_loop host (split nl "ping google.com -t 256|grep -c ttl") 0 =
    (Ok tt, 2,
     [shown_command "ping google.com -t 256|grep -c ttl";
      EPrint [VStr "[EXC]"; VList ["ping"; "google.com"; "-t"; "256"];
              VStr "|"; VList ["grep"; "-c"; "ttl"]];
      EPopen 0 ["ping"; "google.com"; "-t"; "256"] None PIPE;
      EPopen 1 ["grep"; "-c"; "ttl"] (Some 0) Inherited;
      EClose 0; ECommunicate 1 None]).
Proof.
  assert (H : forall tok, In tok ["ping"; "google.com"; "-t"; "256"] ->
     has " " tok = false /\ has "|" tok = false /\ has "@" tok = false
     /\ has nl tok = false).
  { intros tok [<-|[<-|[<-|[<-|[]]]]]; repeat split. }
  assert (H2 : forall tok, In tok ["grep"; "-c"; "ttl"] ->
     has " " tok = false /\ has "|" tok = false /\ has "@" tok = false
     /\ has nl tok = false).
  { intros tok [<-|[<-|[<-|[]]]]; repeat split. }
  pose proof (clean_vectors_run_as_written host
                ["ping"; "google.com"; "-t"; "256"] 0
                ltac:(discriminate) ltac:(discriminate) H) as [E1 E2].
  split; [exact (proj2 E1)|].
  exact (proj2 (E2 ["grep"; "-c"; "ttl"] ltac:(discriminate) H2)).
Defined.

(** X8: when stage 1 of a pipe was launched and stage 2 cannot be, the line
    raises the exception of that launch ([OSError] when the host cannot
    execute the program, [TypeError] when an argument holds a NUL byte) with
    stage 1 left running: its pipe is not closed by the runner, nothing is
    waited for, and the delay of the line, if it has one, is skipped. *)
Theorem second_stage_failure_leaves_first_running
  (w : World) (cmd : string) (n : nat) :
  (1 <= find "|" cmd)%Z ->
  let a1 := split " " (before "|" cmd) in
  let a2 := split " " (before "|" (after "|" cmd)) in
  launchable w a1 = true -> launchable w a2 = false ->
  parsing_cmd w cmd n =
    (Raise (launch_error a2), S n,
     [shown_command cmd; EPrint [VStr "[EXC]"; VList a1; VStr "|"; VList a2];
      EPopen n a1 None PIPE; EPopen (S n) a2 (Some n) Inherited]).
Proof.
  intros Hp a1 a2 H1 H2. rewrite (parsing_cmd_piped w cmd n Hp).
  fold a1 a2. now rewrite H1, H2.
Qed.

Lemma second_stage_failure_leaves_first_running_witness :
  parsing_cmd host "echo hi | cat @3" 0 =
    (Raise OSError, 1,
     [shown_command "echo hi | cat @3";
      EPrint [VStr "[EXC]"; VList ["echo"; "hi"; EmptyString]; VStr "|";
              VList [EmptyString; "cat"; "@3"]];
      EPopen 0 ["echo"; "hi"; EmptyString] None PIPE;
      EPopen 1 [EmptyString; "cat"; "@3"] (Some 0) Inherited]).
Proof.
  apply (second_stage_failure_leaves_first_running host "echo hi | cat @3" 0);
    [vm_compute; discriminate|reflexivity|reflexivity].
Defined.

(** ** Delays need an [@], pipes need a [|] *)

Lemma count_split_other (c d : ascii) (s : string) :
  Ascii.eqb d c = false ->
  list_sum (map (count c) (split d s)) = count c s.
Proof.
  intros Hd. induction s as [|a r IH]; simpl; [reflexivity|].
  destruct (Ascii.eqb_spec a d) as [->|Nd].
  - rewrite Hd. simpl. exact IH.
  - destruct (split d r) as [|h t] eqn:E;
      [exfalso; exact (split_not_nil d r E)|].
    simpl in *. lia.
Qed.

Lemma parsing_cmd_sleeps (w : World) (cmd : string) (n : nat) :
  count_events is_sleep (trace (parsing_cmd w cmd n)) <= count "@" cmd.
Proof.
  line_cases w cmd n; cbn; try lia;
    match goal with H : has "@" cmd = true |- _ => apply has_count in H end;
    lia.
Qed.

Lemma parsing_loop_sleeps (w : World) (l : list string) (n : nat) :
  count_events is_sleep (trace (parsing_loop w l n))
  <= list_sum (map (count "@") l).
Proof.
  revert n. induction l as [|cmd rest IH]; intros n; [cbn; lia|].
  simpl. rewrite bind_run.
  pose proof (parsing_cmd_sleeps w cmd n) as Hc.
  destruct (outcome (parsing_cmd w cmd n)) as [[]|x]; run_proj.
  - rewrite count_events_app.
    specialize (IH (procs (parsing_cmd w cmd n))). lia.
  - lia.
Qed.

Lemma parsing_cmd_no_at (w : World) (cmd : string) (n : nat) :
  has "@" cmd = false ->
  outcome (parsing_cmd w cmd n) = Ok tt
  \/ outcome (parsing_cmd w cmd n) = Raise OSError
  \/ outcome (parsing_cmd w cmd n) = Raise TypeError.
Proof.
  intros Hno.
  line_cases w cmd n; try discriminate Hno; launch_error_cases; tauto.
Qed.

Lemma parsing_loop_no_at (w : World) (l : list string) (n : nat) :
  (forall cmd, In cmd l -> has "@" cmd = false) ->
  outcome (parsing_loop w l n) = Ok tt
  \/ outcome (parsing_loop w l n) = Raise OSError
  \/ outcome (parsing_loop w l n) = Raise TypeError.
Proof.
  revert n. induction l as [|cmd rest IH]; intros n Hall; [now left|].
  simpl. rewrite bind_run.
  destruct (parsing_cmd_no_at w cmd n (Hall cmd (or_introl eq_refl)))
    as [E|[E|E]]; rewrite E; run_proj; [|tauto|tauto].
  apply IH. intros c Hc. apply Hall. now right.
Qed.

(** X9: a run of a file sleeps at most as many times as the file has [@]
    characters; a file without [@] never sleeps, and its run ends normally
    or with an exception of a launch ([OSError], or [TypeError] for an
    argument with a NUL byte), never with an exception of the delay. *)
Theorem sleeps_bounded_by_at_signs
  (w : World) (name txt : string) (n : nat) :
  file_text w name = Some txt ->
  count_events is_sleep (trace (parsing w name n)) <= count "@" txt
  /\ (has "@" txt = false ->
      outcome (parsing w name n) = Ok tt
      \/ outcome (parsing w name n) = Raise OSError
      \/ outcome (parsing w name n) = Raise TypeError).
Proof.
  intros Hfile. rewrite (parsing_run w name txt n Hfile). cbv zeta. run_proj.
  split.
  - rewrite <- (count_split_other "@" nl txt eq_refl).
    exact (parsing_loop_sleeps w (split nl txt) n).
  - intros Hno. apply parsing_loop_no_at. intros cmd Hin.
    destruct (has "@" cmd) eqn:E; [|reflexivity].
    rewrite (split_tokens_sub "@" nl txt cmd Hin E) in Hno. discriminate.
Qed.

Lemma sleeps_bounded_by_at_signs_witness :
  count_events is_sleep (trace (parsing host "broken.txt" 0)) <= 0
  /\ (outcome (parsing host "broken.txt" 0) = Ok tt
      \/ outcome (parsing host "broken.txt" 0) = Raise OSError
      \/ outcome (parsing host "broken.txt" 0) = Raise TypeError).
Proof.
  destruct (sleeps_bounded_by_at_signs host "broken.txt"
              (lines ["echo a"; "nosuch"; "echo b"]) 0 eq_refl) as [H1 H2].
  split; [exact H1|exact (H2 eq_refl)].
Defined.

Lemma no_process_calls_in (t : list event) (e : event) :
  no_process_calls t = true -> In e t -> is_process_call e = false.
Proof.
  unfold no_process_calls. rewrite forallb_forall. intros H Hin.
  now apply negb_true_iff, H.
Qed.

Lemma parsing_cmd_no_pipe (w : World) (cmd : string) (m : nat) (e : event) :
  has "|" cmd = false ->
  In e (trace (parsing_cmd w cmd m)) ->
  match e with
  | EPopen _ _ i o => i = None /\ o = Inherited
  | EClose _ | ECommunicate _ _ => False
  | _ => True
  end.
Proof.
  intros Hno.
  assert (Hp : (find "|" cmd <? 1)%Z = true) by (apply find_lt_1; now left).
  destruct (truthy cmd) eqn:Ht;
    [|unfold parsing_cmd; rewrite Ht; cbv; tauto].
  rewrite (parsing_cmd_single w cmd m Ht Hp). cbv zeta.
  assert (Hw : In e (trace (waiting w (split "@" cmd) (S m))) ->
               match e with
               | EPopen _ _ i o => i = None /\ o = Inherited
               | EClose _ | ECommunicate _ _ => False
               | _ => True
               end).
  { intros Hin.
    pose proof (no_process_calls_in _ e
                  (proj1 (waiting_no_process_calls w cmd (S m))) Hin) as Hc.
    destruct e; simpl in Hc; try discriminate Hc; exact I. }
  destruct (launchable w (split " " cmd)); run_proj; unfold shown_command.
  - intros [<-|[<-|[<-|H]]]; [exact I|exact I|now split|exact (Hw H)].
  - intros [<-|[<-|[<-|[]]]]; [exact I|exact I|now split].
Qed.

(** X10: the run of a file without [|] makes no pipe and waits for
    nothing: every launch leaves standard input and output alone, nothing
    is closed and [communicate] is never called. *)
Theorem no_bar_no_pipe
  (w : World) (name txt : string) (n : nat) (e : event) :
  file_text w name = Some txt ->
  has "|" txt = false ->
  In e (trace (parsing w name n)) ->
  match e with
  | EPopen _ _ i o => i = None /\ o = Inherited
  | EClose _ | ECommunicate _ _ => False
  | _ => True
  end.
Proof.
  intros Hfile Hno. rewrite (parsing_run w name txt n Hfile). cbv zeta.
  run_proj. unfold shown_start.
  intros [<-|[<-|[<-|H]]]; [exact I|exact I|exact I|].
  revert e H. apply parsing_loop_events. intros cmd m e Hin He.
  apply (parsing_cmd_no_pipe w cmd m e); [|exact He].
  destruct (has "|" cmd) eqn:E; [|reflexivity].
  rewrite (split_tokens_sub "|" nl txt cmd Hin E) in Hno. discriminate.
Qed.

Lemma no_bar_no_pipe_witness :
  has "|" (lines ["echo a"; "nosuch"; "echo b"]) = false
  /\ In (EPopen 1 ["nosuch"] None Inherited) (trace (parsing host "broken.txt" 0))
  /\ (None = @None nat /\ Inherited = Inherited).
Proof.
  split; [reflexivity|]. split; [vm_compute; tauto|].
  apply (no_bar_no_pipe host "broken.txt" (lines ["echo a"; "nosuch"; "echo b"])
           0 (EPopen 1 ["nosuch"] None Inherited));
    [reflexivity|reflexivity|vm_compute; tauto].
Defined.

(** ** Pipes kept in order *)

Lemma parsing_cmd_pipes (w : World) (cmd : string) (n : nat) :
  let t := trace (parsing_cmd w cmd n) in
  count_events is_close t = count_events is_communicate t
  /\ count_events is_close t <= count_events is_piped_launch t
  /\ count_events is_piped_launch t
     <= count_events is_close t + failed_launch (outcome (parsing_cmd w cmd n)).
Proof. line_cases w cmd n; launch_error_cases; cbn; lia. Qed.

Lemma parsing_loop_pipes (w : World) (l : list string) (n : nat) :
  let t := trace (parsing_loop w l n) in
  count_events is_close t = count_events is_communicate t
  /\ count_events is_close t <= count_events is_piped_launch t
  /\ count_events is_piped_launch t
     <= count_events is_close t + failed_launch (outcome (parsing_loop w l n)).
Proof.
  revert n. induction l as [|cmd rest IH]; intros n; [cbn; lia|].
  simpl. rewrite bind_run.
  pose proof (parsing_cmd_pipes w cmd n) as Hc. cbv zeta in Hc.
  destruct (outcome (parsing_cmd w cmd n)) as [[]|x]; run_proj.
  - rewrite !count_events_app.
    specialize (IH (procs (parsing_cmd w cmd n))). cbv zeta in IH.
    simpl in Hc. lia.
  - exact Hc.
Qed.

(** X11: in a run of the script the runner closes its end of a pipe as
    often as it calls [communicate], and it does both once for every launch
    with [stdout=PIPE], except for the pipe of a line that ended the run
    with an exception of [Popen] ([OSError], or [TypeError] for an argument
    with a NUL byte), which is left open and unawaited. *)
Theorem main_pipes_closed_and_awaited
  (w : World) (argv : list string) (n : nat) :
  let t := trace (main w argv n) in
  count_events is_close t = count_events is_communicate t
  /\ count_events is_close t <= count_events is_piped_launch t
  /\ count_events is_piped_launch t
     <= count_events is_close t + failed_launch (outcome (main w argv n)).
Proof.
  rewrite main_cases.
  destruct argv as [|script [|file_name extra]]; [cbn; lia|cbn; lia|].
  destruct (parsing_cases w file_name n) as [[_ E]|[txt [_ E]]]; rewrite E.
  - cbn. lia.
  - run_proj. exact (parsing_loop_pipes w (split nl txt) n).
Qed.

Lemma parsing_cmd_wiring (w : World) (cmd : string) (m p q : nat)
  (argv : list string) (o : stdout_arg) :
  In (EPopen p argv (Some q) o) (trace (parsing_cmd w cmd m)) ->
  p = S q /\ o = Inherited /\ m <= q
  /\ exists argv1, In (EPopen q argv1 None PIPE) (trace (parsing_cmd w cmd m)).
Proof.
  line_cases w cmd m; unfold shown_command, shown_waiting;
    intros H; simpl in H;
    repeat (destruct H as [H|H]; [try discriminate H|]);
    try contradiction;
    inversion H; subst; (split; [reflexivity|]); (split; [reflexivity|]);
    (split; [lia|]); eexists; simpl; right; right; left; reflexivity.
Qed.

Lemma parsing_loop_wiring (w : World) (l : list string) (n p q : nat)
  (argv : list string) (o : stdout_arg) :
  In (EPopen p argv (Some q) o) (trace (parsing_loop w l n)) ->
  p = S q /\ o = Inherited /\ n <= q
  /\ exists argv1, In (EPopen q argv1 None PIPE) (trace (parsing_loop w l n)).
Proof.
  revert n. induction l as [|cmd rest IH]; intros n; [cbv; tauto|].
  simpl. intros H. apply in_trace_bind in H. destruct H as [H|[a [Ha H]]].
  - destruct (parsing_cmd_wiring w cmd n p q argv o H)
      as [Hp [Ho [Hq [argv1 Hin]]]].
    repeat (split; [assumption|]). exists argv1.
    now apply in_trace_bind_l.
  - destruct (IH _ H) as [Hp [Ho [Hq [argv1 Hin]]]].
    pose proof (parsing_cmd_procs w cmd n).
    split; [assumption|]. split; [assumption|]. split; [lia|].
    exists argv1. exact (in_trace_bind_r _ _ n _ a Ha Hin).
Qed.

(** X12: in the run of a file a process whose standard input is
    redirected reads from the pipe of the process launched just before it,
    in the same run, which was launched with [stdout=PIPE] and its own input
    left alone; the reader's output is not redirected.  So every pipe has
    two stages and no process sits in the middle of one. *)
Theorem redirected_input_comes_from_previous_process
  (w : World) (name : string) (n p q : nat)
  (argv : list string) (o : stdout_arg) :
  In (EPopen p argv (Some q) o) (trace (parsing w name n)) ->
  p = S q /\ o = Inherited /\ n <= q
  /\ exists argv1, In (EPopen q argv1 None PIPE) (trace (parsing w name n)).
Proof.
  destruct (parsing_cases w name n) as [[_ E]|[txt [_ E]]]; rewrite E; run_proj.
  - intros [H|[H|[]]]; discriminate H.
  - intros [H|[H|[H|H]]]; try discriminate H.
    destruct (parsing_loop_wiring w _ n p q argv o H)
      as [Hp [Ho [Hq [argv1 Hin]]]].
    repeat (split; [assumption|]). exists argv1.
    right. right. right. exact Hin.
Qed.

Lemma redirected_input_comes_from_previous_process_witness :
  In (EPopen 4 [EmptyString; "cat"] (Some 3) Inherited)
     (trace (parsing host "usage.txt" 0))
  /\ 4 = 4 /\ Inherited = Inherited /\ 0 <= 3
  /\ exists argv1,
       In (EPopen 3 argv1 None PIPE) (trace (parsing host "usage.txt" 0)).
Proof.
  assert (H : In (EPopen 4 [EmptyString; "cat"] (Some 3) Inherited)
                 (trace (parsing host "usage.txt" 0)))
    by (vm_compute; tauto).
  split; [exact H|].
  exact (redirected_input_comes_from_previous_process host "usage.txt" 0 4 3
           [EmptyString; "cat"] Inherited H).
Defined.
